(** * Shallow embedding of [movie_pipeline_group.py]

    The per-record callbacks of the movie pipeline: [ParseCsv], [CleanData],
    [FilterRatingData], [FilterBasicData], [join_ratings] and the
    [mergedicts] lambda of [run].

    Modelling conventions.
    - A Python [str] is a [list ascii]; a character is a code point in the
      range 0..255.
    - A Python [dict] is an association list in insertion order, whose keys
      are pairwise distinct; reading a missing key raises [KeyError],
      assigning an existing key updates it in place, assigning a new key
      appends it.
    - A record value is one of the Python values the pipeline stores in a
      record: [str], [None], [bool], [int], [float] and the [list] of extra
      fields that [csv.DictReader] stores under its [restkey].  Python
      floats are modelled by rationals [Q] (no NaN, no infinities).
    - A raised exception is [Err e]; the exceptions are named as in Python. *)

From Stdlib Require Import List Ascii String NArith ZArith QArith Bool Lia
  Permutation.
Import ListNotations.
Open Scope list_scope.

(** ** Python exceptions and the result monad *)

Inductive exn : Type :=
| KeyError
| TypeError
| ValueError
| AttributeError
| CsvError.

Inductive result (A : Type) : Type :=
| Ok (a : A)
| Err (e : exn).
Arguments Ok {A} a.
Arguments Err {A} e.

Definition bind {A B : Type} (m : result A) (k : A -> result B) : result B :=
  match m with
  | Ok a => k a
  | Err e => Err e
  end.

Notation "x <- m ;; k" := (bind m (fun x => k))
  (at level 61, m at next level, right associativity).

(** ** Strings *)

Definition str := list ascii.

(** A Python string literal. *)
Definition lit (s : string) : str := list_ascii_of_string s.

Definition str_eqb (s t : str) : bool :=
  if list_eq_dec ascii_dec s t then true else false.

(** ** Values, keys and records *)

Inductive value : Type :=
| VStr (s : str)
| VNone
| VBool (b : bool)
| VInt (z : Z)
| VFloat (q : Q)
| VList (l : list str).

(** A dict key: a column name, or [None] (the [restkey] of [DictReader]). *)
Inductive pykey : Type :=
| Col (c : str)
| NoneKey.

Definition pykey_eq_dec (k k' : pykey) : {k = k'} + {k <> k'}.
Proof. decide equality; apply list_eq_dec, ascii_dec. Defined.

Definition pykey_eqb (k k' : pykey) : bool :=
  if pykey_eq_dec k k' then true else false.

Definition Q_eq_dec (p q : Q) : {p = q} + {p <> q}.
Proof. decide equality; [apply Pos.eq_dec | apply Z.eq_dec]. Defined.

Definition value_eq_dec (v w : value) : {v = w} + {v <> w}.
Proof.
  decide equality;
    first [ apply list_eq_dec, ascii_dec | apply bool_dec | apply Z.eq_dec
          | apply Q_eq_dec | apply list_eq_dec, list_eq_dec, ascii_dec ].
Defined.

Definition record := list (pykey * value).

(** [d[k]] *)
Fixpoint dict_lookup (d : record) (k : pykey) : option value :=
  match d with
  | [] => None
  | (k', v) :: d' => if pykey_eqb k k' then Some v else dict_lookup d' k
  end.

Definition dict_get (d : record) (k : pykey) : result value :=
  match dict_lookup d k with
  | Some v => Ok v
  | None => Err KeyError
  end.

(** [d[k] = v] *)
Fixpoint dict_set (d : record) (k : pykey) (v : value) : record :=
  match d with
  | [] => [(k, v)]
  | (k', v') :: d' =>
      if pykey_eqb k k' then (k', v) :: d' else (k', v') :: dict_set d' k v
  end.

Definition keys (d : record) : list pykey := map fst d.

(** ** Python operations on values *)

(** [bool(v)] *)
Definition truthy (v : value) : bool :=
  match v with
  | VStr s => negb (str_eqb s [])
  | VNone => false
  | VBool b => b
  | VInt z => negb (Z.eqb z 0)
  | VFloat q => negb (Qeq_bool q 0)
  | VList l => match l with [] => false | _ => true end
  end.

(** [v == s] for a string literal [s]: a [str] equals only a [str]. *)
Definition eq_str (v : value) (s : str) : bool :=
  match v with
  | VStr t => str_eqb t s
  | _ => false
  end.

(** [v >= c] for a number [c]; comparing a non-number raises [TypeError]. *)
Definition py_ge (v : value) (c : Q) : result bool :=
  match v with
  | VBool b => Ok (Qle_bool c (if b then 1 else 0))
  | VInt z => Ok (Qle_bool c (inject_Z z))
  | VFloat q => Ok (Qle_bool c q)
  | _ => Err TypeError
  end.

(** ** [CleanData]

    Python's [int(s)] and [float(s)] on a string are taken as parameters:
    [int_of_str s = None] and [float_of_str s = None] mean that the call
    raises [ValueError]. *)

Section CleanData.

Variable int_of_str : str -> option Z.
Variable float_of_str : str -> option Q.

(** [int(v)] *)
Definition py_int (v : value) : result Z :=
  match v with
  | VStr s => match int_of_str s with Some z => Ok z | None => Err ValueError end
  | VBool b => Ok (if b then 1%Z else 0%Z)
  | VInt z => Ok z
  | VFloat q => Ok (Z.quot (Qnum q) (Zpos (Qden q)))
  | VNone | VList _ => Err TypeError
  end.

(** [float(v)] *)
Definition py_float (v : value) : result Q :=
  match v with
  | VStr s => match float_of_str s with Some q => Ok q | None => Err ValueError end
  | VBool b => Ok (if b then 1 else 0)
  | VInt z => Ok (inject_Z z)
  | VFloat q => Ok q
  | VNone | VList _ => Err TypeError
  end.

Record clean_config : Type := {
  bool_cols : list str;
  int_cols : list str;
  float_cols : list str
}.

(** [for col in cols: record[col] = f(record[col])], where [f] may raise. *)
Fixpoint update_cols (f : value -> result value) (cols : list str) (r : record)
  : result record :=
  match cols with
  | [] => Ok r
  | c :: cs =>
      v <- dict_get r (Col c) ;;
      v' <- f v ;;
      update_cols f cs (dict_set r (Col c) v')
  end.

(** Step 1 of [process]: [if record[k] == '\\N': record[k] = None]. *)
Definition unsentinel (v : value) : value :=
  if eq_str v (lit "\N") then VNone else v.

Definition map_sentinel (r : record) : record :=
  map (fun kv => (fst kv, unsentinel (snd kv))) r.

(** Step 2 of [process]: [record[col] = False if record[col] == '0' else True]. *)
Definition coerce_bool (v : value) : result value :=
  Ok (VBool (negb (eq_str v (lit "0")))).

(** The loop body of [_parse_numeric] for a conversion [func]. *)
Definition coerce_numeric (func : value -> result value) (v : value)
  : result value :=
  if truthy v then
    match func v with
    | Ok n => Ok n
    | Err ValueError => Ok VNone
    | Err e => Err e
    end
  else Ok VNone.

Definition int_func (v : value) : result value :=
  z <- py_int v ;; Ok (VInt z).

Definition float_func (v : value) : result value :=
  q <- py_float v ;; Ok (VFloat q).

(** [_parse_numeric(record, ttype)] *)
Definition parse_numeric (cfg : clean_config) (r : record) (ttype : str)
  : result record :=
  if str_eqb ttype (lit "float") then
    update_cols (coerce_numeric float_func) (float_cols cfg) r
  else if str_eqb ttype (lit "int") then
    update_cols (coerce_numeric int_func) (int_cols cfg) r
  else Err AttributeError.

(** [CleanData(cfg).process(record)]: the one record it yields. *)
Definition clean (cfg : clean_config) (r : record) : result record :=
  let r1 := map_sentinel r in
  r2 <- update_cols coerce_bool (bool_cols cfg) r1 ;;
  r3 <- parse_numeric cfg r2 (lit "int") ;;
  parse_numeric cfg r3 (lit "float").

End CleanData.

(** The two configurations used by [run]. *)
Definition basic_cfg : clean_config := {|
  bool_cols := [lit "isAdult"];
  int_cols := [lit "startYear"; lit "endYear"; lit "runtimeMinutes"];
  float_cols := []
|}.

Definition rating_cfg : clean_config := {|
  bool_cols := [];
  int_cols := [lit "numVotes"];
  float_cols := [lit "averageRating"]
|}.

(** ** [FilterRatingData] and [FilterBasicData] *)

(** [FilterRatingData().process(record)]: the records it yields. *)
Definition filter_rating (r : record) : result (list record) :=
  a <- dict_get r (Col (lit "averageRating")) ;;
  if truthy a then
    b <- py_ge a (5 # 1) ;;
    Ok (if b then [r] else [])
  else Ok [].

(** [FilterBasicData().process(record)]: the records it yields. *)
Definition filter_basic (r : record) : result (list record) :=
  t <- dict_get r (Col (lit "titleType")) ;;
  if eq_str t (lit "movie") then
    a <- dict_get r (Col (lit "isAdult")) ;;
    if truthy a then Ok [] else
    y <- dict_get r (Col (lit "startYear")) ;;
    if truthy y then
      b <- py_ge y (1970 # 1) ;;
      Ok (if b then [r] else [])
    else Ok []
  else Ok [].

(** ** [join_ratings] and the [mergedicts] lambda *)

(** [join_ratings(v)] for [v = (key, {'movie_keys': ms, 'rating_keys': rs})]:
    [itertools.product(ms, rs)]. *)
Definition join_ratings (v : value * (list record * list record))
  : list (record * record) :=
  list_prod (fst (snd v)) (snd (snd v)).

(** [{**a, **b}]: the items of [a], then those of [b], into a new dict. *)
Definition mergedicts (dd : record * record) : record :=
  fold_left (fun acc kv => dict_set acc (fst kv) (snd kv)) (fst dd ++ snd dd) [].

(** ** [ParseCsv]: [csv.DictReader(string.splitlines(), fieldnames=col_names,
    delimiter='\t')]

    The reader follows the character state machine of CPython's [_csv]
    module (3.11 and later) for the default [excel] dialect with the tab
    delimiter: the double-quote character as [quotechar], [doublequote=True], no [escapechar],
    [skipinitialspace=False], [strict=False], [QUOTE_MINIMAL]; a field may
    hold at most [field_size_limit()] = 131072 characters. *)

Definition tab : ascii := "009"%char.
Definition quotechar : ascii := "034"%char.
Definition lf : ascii := "010"%char.
Definition cr : ascii := "013"%char.

Definition is_crlf (c : ascii) : bool :=
  (Ascii.eqb c lf || Ascii.eqb c cr)%bool.

(** The line boundaries of [str.splitlines] among the code points 0..255. *)
Definition is_line_break (c : ascii) : bool :=
  existsb (Ascii.eqb c)
    [lf; cr; "011"%char; "012"%char; "028"%char; "029"%char; "030"%char;
     "133"%char].

(** [s.splitlines()] *)
Fixpoint splitlines_aux (s : str) (cur : str) : list str :=
  match s with
  | [] => match cur with [] => [] | _ => [cur] end
  | c :: s' =>
      if Ascii.eqb c cr then
        match s' with
        | c' :: s'' =>
            if Ascii.eqb c' lf then cur :: splitlines_aux s'' []
            else cur :: splitlines_aux s' []
        | [] => [cur]
        end
      else if is_line_break c then cur :: splitlines_aux s' []
      else splitlines_aux s' (cur ++ [c])
  end.

Definition splitlines (s : str) : list str := splitlines_aux s [].

Inductive pstate : Type :=
| START_RECORD
| START_FIELD
| IN_FIELD
| IN_QUOTED_FIELD
| QUOTE_IN_QUOTED_FIELD
| EAT_CRNL.

Definition pstate_eqb (p q : pstate) : bool :=
  match p, q with
  | START_RECORD, START_RECORD | START_FIELD, START_FIELD
  | IN_FIELD, IN_FIELD | IN_QUOTED_FIELD, IN_QUOTED_FIELD
  | QUOTE_IN_QUOTED_FIELD, QUOTE_IN_QUOTED_FIELD | EAT_CRNL, EAT_CRNL => true
  | _, _ => false
  end.

(** A character of a line, or the end-of-line mark the reader feeds after
    each line. *)
Inductive pchar : Type :=
| Chr (c : ascii)
| EOL.

Record reader : Type := mkReader {
  rstate : pstate;
  rfields : list str;
  rfield : str
}.

Definition field_limit : N := 131072%N.

Definition reader_reset : reader := mkReader START_RECORD [] [].

Definition set_state (st : reader) (p : pstate) : reader :=
  mkReader p (rfields st) (rfield st).

(** [parse_add_char] *)
Definition add_char (st : reader) (c : ascii) (next : pstate) : result reader :=
  if N.leb field_limit (N.of_nat (List.length (rfield st))) then Err CsvError
  else Ok (mkReader next (rfields st) (rfield st ++ [c])).

(** [parse_save_field] *)
Definition save_field (st : reader) (next : pstate) : reader :=
  mkReader next (rfields st ++ [rfield st]) [].

(** The [START_FIELD] case on a character. *)
Definition start_field (st : reader) (c : ascii) : result reader :=
  if is_crlf c then Ok (save_field st EAT_CRNL)
  else if Ascii.eqb c quotechar then Ok (set_state st IN_QUOTED_FIELD)
  else if Ascii.eqb c tab then Ok (save_field st START_FIELD)
  else add_char st c IN_FIELD.

(** [parse_process_char] *)
Definition process_char (st : reader) (c : pchar) : result reader :=
  match rstate st, c with
  | START_RECORD, EOL => Ok st
  | START_RECORD, Chr x =>
      if is_crlf x then Ok (set_state st EAT_CRNL) else start_field st x
  | START_FIELD, EOL => Ok (save_field st START_RECORD)
  | START_FIELD, Chr x => start_field st x
  | IN_FIELD, EOL => Ok (save_field st START_RECORD)
  | IN_FIELD, Chr x =>
      if is_crlf x then Ok (save_field st EAT_CRNL)
      else if Ascii.eqb x tab then Ok (save_field st START_FIELD)
      else add_char st x IN_FIELD
  | IN_QUOTED_FIELD, EOL => Ok st
  | IN_QUOTED_FIELD, Chr x =>
      if Ascii.eqb x quotechar then Ok (set_state st QUOTE_IN_QUOTED_FIELD)
      else add_char st x IN_QUOTED_FIELD
  | QUOTE_IN_QUOTED_FIELD, EOL => Ok (save_field st START_RECORD)
  | QUOTE_IN_QUOTED_FIELD, Chr x =>
      if Ascii.eqb x quotechar then add_char st x IN_QUOTED_FIELD
      else if Ascii.eqb x tab then Ok (save_field st START_FIELD)
      else if is_crlf x then Ok (save_field st EAT_CRNL)
      else add_char st x IN_FIELD
  | EAT_CRNL, EOL => Ok (set_state st START_RECORD)
  | EAT_CRNL, Chr x => if is_crlf x then Ok st else Err CsvError
  end.

Fixpoint process_chars (st : reader) (s : str) : result reader :=
  match s with
  | [] => Ok st
  | c :: s' => st' <- process_char st (Chr c) ;; process_chars st' s'
  end.

(** One line of input: its characters, then [EOL]. *)
Definition process_line (st : reader) (l : str) : result reader :=
  st' <- process_chars st l ;; process_char st' EOL.

(** The rows produced by repeated [Reader_iternext] calls over [lines]:
    a row ends when the state is back to [START_RECORD] after a line; at
    the end of the input a pending field is saved into a last row. *)
Fixpoint read_rows (lines : list str) (st : reader) : result (list (list str)) :=
  match lines with
  | [] =>
      if (negb (Nat.eqb (List.length (rfield st)) 0)
          || pstate_eqb (rstate st) IN_QUOTED_FIELD)%bool
      then Ok [rfields (save_field st START_RECORD)]
      else Ok []
  | l :: ls =>
      st' <- process_line st l ;;
      if pstate_eqb (rstate st') START_RECORD then
        rows <- read_rows ls reader_reset ;; Ok (rfields st' :: rows)
      else read_rows ls st'
  end.

(** [DictReader.__next__] on a non-empty row, with [restkey=None] and
    [restval=None]. *)
Definition dict_of_row (fieldnames : list str) (row : list str) : record :=
  let d := fold_left (fun acc kv => dict_set acc (Col (fst kv)) (VStr (snd kv)))
             (combine fieldnames row) [] in
  let nf := List.length fieldnames in
  let nr := List.length row in
  if Nat.ltb nf nr then dict_set d NoneKey (VList (skipn nf row))
  else if Nat.ltb nr nf then
    fold_left (fun acc c => dict_set acc (Col c) VNone) (skipn nr fieldnames) d
  else d.

Definition nonempty_row (row : list str) : bool :=
  match row with [] => false | _ => true end.

(** [ParseCsv(col_names).process(string)]: the records it yields
    ([DictReader] skips empty rows). *)
Definition parse_csv (col_names : list str) (s : str) : result (list record) :=
  rows <- read_rows (splitlines s) reader_reset ;;
  Ok (map (dict_of_row col_names) (filter nonempty_row rows)).

(** The two schemas used by [run]. *)
Definition columns_title_basic : list str :=
  map lit ["tconst"; "titleType"; "primaryTitle"; "originalTitle";
           "isAdult"; "startYear"; "endYear"; "runtimeMinutes"; "genres"]%string.

Definition columns_ratings : list str :=
  map lit ["tconst"; "averageRating"; "numVotes"]%string.

(** [s.split('\t')]: the tab-delimited fields of a line. *)
Fixpoint split_tab_aux (s : str) (cur : str) : list str :=
  match s with
  | [] => [cur]
  | c :: s' =>
      if Ascii.eqb c tab then cur :: split_tab_aux s' []
      else split_tab_aux s' (cur ++ [c])
  end.

Definition split_tab (s : str) : list str := split_tab_aux s [].

(** ['\t'.join(fields)] *)
Fixpoint join_tab (fs : list str) : str :=
  match fs with
  | [] => []
  | [f] => f
  | f :: fs' => f ++ tab :: join_tab fs'
  end.

(** Re-joining a record's values in schema order with the tab delimiter;
    [None] when a schema field is missing or is not a string. *)
Fixpoint field_strings (cols : list str) (r : record) : option (list str) :=
  match cols with
  | [] => Some []
  | c :: cs =>
      match dict_lookup r (Col c), field_strings cs r with
      | Some (VStr s), Some ss => Some (s :: ss)
      | _, _ => None
      end
  end.

Definition unparse (cols : list str) (r : record) : option str :=
  match field_strings cols r with
  | Some ss => Some (join_tab ss)
  | None => None
  end.

(** ** Keying and [beam.CoGroupByKey]

    [CoGroupByKey] belongs to Apache Beam, not to this repository; it is
    modelled by its documented contract, [is_cogroup]: one group per
    distinct key of either side, each holding the records of that key on
    each side, in no particular order. *)

(** [r['tconst']] *)
Definition tconst (r : record) : result value := dict_get r (Col (lit "tconst")).

(** [pcoll | beam.Map(lambda r: (r['tconst'], r))] *)
Fixpoint key_by_tconst (rs : list record) : result (list (value * record)) :=
  match rs with
  | [] => Ok []
  | r :: rs' =>
      k <- tconst r ;;
      rest <- key_by_tconst rs' ;;
      Ok ((k, r) :: rest)
  end.

Definition value_eqb (v w : value) : bool :=
  if value_eq_dec v w then true else false.

(** The records of a keyed collection under key [k], in collection order. *)
Definition values_for (k : value) (kvs : list (value * record)) : list record :=
  map snd (filter (fun kv => value_eqb (fst kv) k) kvs).

(** A group of [CoGroupByKey]: [(key, {'movie_keys': ms, 'rating_keys': rs})]. *)
Definition cogroup : Type := value * (list record * list record).

Definition is_cogroup (mk rk : list (value * record)) (g : list cogroup) : Prop :=
  NoDup (map fst g) /\
  (forall k, In k (map fst g) <-> In k (map fst mk) \/ In k (map fst rk)) /\
  (forall k ms rs, In (k, (ms, rs)) g ->
     Permutation ms (values_for k mk) /\ Permutation rs (values_for k rk)).

(** One grouping that meets the contract: keys in order of first
    appearance, records in collection order. *)
Definition cogroup_by_key (mk rk : list (value * record)) : list cogroup :=
  map (fun k => (k, (values_for k mk, values_for k rk)))
    (nodup value_eq_dec (map fst mk ++ map fst rk)).

(** [CoGroupByKey() | FlatMap(join_ratings)] on a grouping [g]. *)
Definition joined_pairs (g : list cogroup) : list (record * record) :=
  flat_map join_ratings g.

(** Whether a record's [tconst] is [k]. *)
Definition has_tconst (k : value) (r : record) : bool :=
  match dict_lookup r (Col (lit "tconst")) with
  | Some v => value_eqb v k
  | None => false
  end.

(** ** Decimal literals

    Instances of [int_of_str] and [float_of_str] for plain decimal literals
    (an optional sign and digits; for floats also an optional fractional
    part), on which they agree with Python's [int] and [float]. *)

Definition digit_val (c : ascii) : option Z :=
  let n := nat_of_ascii c in
  if (Nat.leb 48 n && Nat.leb n 57)%bool then Some (Z.of_nat (n - 48)) else None.

Fixpoint digits_val (acc : Z) (s : str) : option Z :=
  match s with
  | [] => Some acc
  | c :: s' =>
      match digit_val c with
      | Some d => digits_val (10 * acc + d)%Z s'
      | None => None
      end
  end.

Definition unsigned_int (s : str) : option Z :=
  match s with [] => None | _ => digits_val 0 s end.

Definition dec_int_of_str (s : str) : option Z :=
  match s with
  | c :: s' =>
      if Ascii.eqb c "-"%char then option_map Z.opp (unsigned_int s')
      else if Ascii.eqb c "+"%char then unsigned_int s'
      else unsigned_int s
  | [] => None
  end.

Fixpoint split_dot (s : str) : str * option str :=
  match s with
  | [] => ([], None)
  | c :: s' =>
      if Ascii.eqb c "."%char then ([], Some s')
      else let (a, b) := split_dot s' in (c :: a, b)
  end.

Definition unsigned_float (s : str) : option Q :=
  match split_dot s with
  | (ip, None) => option_map inject_Z (unsigned_int ip)
  | (ip, Some fp) =>
      match unsigned_int ip, unsigned_int fp with
      | Some i, Some f =>
          Some (inject_Z i + (f # Pos.of_nat (Nat.pow 10 (List.length fp))))
      | _, _ => None
      end
  end.

Definition dec_float_of_str (s : str) : option Q :=
  match s with
  | c :: s' =>
      if Ascii.eqb c "-"%char then option_map Qopp (unsigned_float s')
      else if Ascii.eqb c "+"%char then unsigned_float s'
      else unsigned_float s
  | [] => None
  end.

(** ** Helper definitions for the statements *)

(** Whether a key is one of the columns [cols]. *)
Definition in_cols (k : pykey) (cols : list str) : bool :=
  match k with
  | Col c => existsb (str_eqb c) cols
  | NoneKey => false
  end.

(** Rewriting every value of a dict, keys and order unchanged. *)
Definition map_vals (h : pykey -> value -> value) (r : record) : record :=
  map (fun kv => (fst kv, h (fst kv) (snd kv))) r.

(** All the configured columns of a [CleanData]. *)
Definition all_cols (cfg : clean_config) : list str :=
  bool_cols cfg ++ int_cols cfg ++ float_cols cfg.

(** The three column lists are disjoint and free of repetitions. *)
Definition cfg_ok (cfg : clean_config) : Prop := NoDup (all_cols cfg).

(** A value as [ParseCsv] leaves a schema field: a string, or [None]. *)
Definition raw_value (v : value) : Prop := v = VNone \/ exists s, v = VStr s.

(** Every configured column is present and holds a raw value. *)
Definition raw_for (cfg : clean_config) (r : record) : Prop :=
  forall c, In c (all_cols cfg) ->
    exists v, dict_lookup r (Col c) = Some v /\ raw_value v.

(** The value of a column after the three steps of [CleanData.process],
    given the sentinel-mapped value [u] and what the int and float loops
    make of it. *)
Definition clean_value (cfg : clean_config) (gi gf : value -> value)
  (k : pykey) (u : value) : value :=
  if in_cols k (bool_cols cfg) then VBool (negb (eq_str u (lit "0")))
  else if in_cols k (int_cols cfg) then gi u
  else if in_cols k (float_cols cfg) then gf u
  else u.

(** What [_parse_numeric] makes of a raw value [u] with a string parser. *)
Definition numeric_value {N : Type} (parse : str -> option N) (wrap : N -> value)
  (u : value) : value :=
  match u with
  | VStr s =>
      if str_eqb s [] then VNone
      else match parse s with Some n => wrap n | None => VNone end
  | _ => VNone
  end.

(** What a second [CleanData.process] does to a value [v] of its own
    output: boolean columns become [True], numeric columns equal to zero
    become [None], the rest is unchanged. *)
Definition renormalize (cfg : clean_config) (k : pykey) (v : value) : value :=
  if in_cols k (bool_cols cfg) then VBool true
  else if in_cols k (int_cols cfg ++ float_cols cfg) then
    (if truthy v then v else VNone)
  else v.

(** Whether a numeric column with raw value [v] ended up as [w]: absent
    when [v] is absent, the sentinel or empty; the parsed number when the
    parse succeeds; absent when it fails. *)
Definition coerced_as {N : Type} (parse : str -> option N) (wrap : N -> value)
  (v w : value) : Prop :=
  (v = VNone \/ v = VStr (lit "\N") \/ v = VStr [] -> w = VNone) /\
  (forall s n, v = VStr s -> s <> [] -> s <> lit "\N" -> parse s = Some n ->
     w = wrap n) /\
  (forall s, v = VStr s -> parse s = None -> w = VNone).

(** ** Example records *)

Definition mk_record (kvs : list (string * value)) : record :=
  map (fun kv => (Col (lit (fst kv)), snd kv)) kvs.

Definition vs (s : string) : value := VStr (lit s).

Definition ex_basic_raw : record := mk_record [
  ("tconst", vs "tt0083658"); ("titleType", vs "movie");
  ("primaryTitle", vs "Blade Runner"); ("originalTitle", vs "Blade Runner");
  ("isAdult", vs "0"); ("startYear", vs "1982"); ("endYear", vs "\N");
  ("runtimeMinutes", vs "117"); ("genres", vs "Action,Drama,Sci-Fi")]%string.

Definition ex_basic_raw_nulladult : record := mk_record [
  ("tconst", vs "tt0000009"); ("titleType", vs "movie");
  ("primaryTitle", vs "Miss Jerry"); ("originalTitle", vs "Miss Jerry");
  ("isAdult", vs "\N"); ("startYear", vs "1894"); ("endYear", vs "\N");
  ("runtimeMinutes", vs "45"); ("genres", vs "Romance")]%string.

Definition ex_rating_raw : record := mk_record [
  ("tconst", vs "tt0083658"); ("averageRating", vs "8.1");
  ("numVotes", vs "N/A")]%string.

(** A normalized rating record with the given [averageRating]. *)
Definition ex_rating (avg : value) : record := mk_record [
  ("tconst", vs "tt0000001"); ("averageRating", avg);
  ("numVotes", VInt 100)]%string.

(** A normalized basic record with the given [titleType], [isAdult] and
    [startYear]. *)
Definition ex_basic (title_type : string) (adult : bool) (start : value)
  : record := mk_record [
  ("tconst", vs "tt0000001"); ("titleType", vs title_type);
  ("primaryTitle", vs "Title"); ("originalTitle", vs "Title");
  ("isAdult", VBool adult); ("startYear", start); ("endYear", VNone);
  ("runtimeMinutes", VInt 90); ("genres", vs "Drama")]%string.

(** A field the reader takes verbatim: no tab, no line break, no leading
    double quote, within the field size limit. *)
Definition good_field (f : str) : Prop :=
  (forall c, In c f -> is_line_break c = false /\ c <> tab) /\
  hd_error f <> Some quotechar /\
  (N.of_nat (List.length f) <= field_limit)%N.

(** A ratings line whose first field is quoted, as IMDb titles can be. *)
Definition ex_quoted_line : str :=
  [quotechar] ++ lit "tt1" ++ [quotechar; tab] ++ lit "7.2" ++ [tab] ++ lit "100".

(** A ratings line with two fields instead of three. *)
Definition ex_short_line : str := lit "tt1" ++ [tab] ++ lit "7.2".

(** Two fields of a ratings line, the first written quoted. *)
Definition ex_items : list (bool * str) :=
  [(true, lit "a" ++ [tab] ++ lit "b"); (false, lit "7.2")].
(** Ratings lines, one of them empty. *)
Definition ex_lines : list str :=
  [join_tab (map lit ["tt1"; "7.2"; "100"]%string); [];
   join_tab (map lit ["tt2"; "4.5"; "12"]%string)].
(** A field one character longer than [field_limit]. *)
Definition long_field : str := repeat "a"%char (N.to_nat 131073).
(** A line of [title.basics.tsv] and one of [title.ratings.tsv]. *)
Definition ex_basic_line : str :=
  join_tab (map lit ["tt0083658"; "movie"; "Blade Runner"; "Blade Runner"; "0"; "1982";
                     "\N"; "117"; "Action,Drama,Sci-Fi"]%string).
Definition ex_rating_line : str := join_tab (map lit ["tt0083658"; "8.1"; "1000"]%string).
(** A raw basic record without its [startYear] column. *)
Definition ex_basic_raw_nostart : record := mk_record [
  ("tconst", vs "tt0083658"); ("titleType", vs "movie");
  ("primaryTitle", vs "Blade Runner"); ("originalTitle", vs "Blade Runner");
  ("isAdult", vs "0"); ("endYear", vs "\N");
  ("runtimeMinutes", vs "117"); ("genres", vs "Action,Drama,Sci-Fi")]%string.

(** The record ParseCsv builds from [ex_short_line]. *)
Definition ex_short_record : record := dict_of_row columns_ratings (split_tab ex_short_line).

(** [csv] quoting of a field: the field in double quotes, each double
    quote inside doubled. *)
Definition quote_field (f : str) : str :=
  quotechar :: flat_map (fun c => if Ascii.eqb c quotechar then [quotechar; quotechar]
                                  else [c]) f ++ [quotechar].

(** A field as it appears on a line: quoted when [q], verbatim otherwise. *)
Definition encode_field (qf : bool * str) : str :=
  if fst qf then quote_field (snd qf) else snd qf.

(** A field the reader takes back from its encoding: no line break and
    within the size limit; unquoted, it also holds no tab and does not
    start with a double quote. *)
Definition item_ok (qf : bool * str) : Prop :=
  (forall c, In c (snd qf) -> is_line_break c = false) /\
  (N.of_nat (List.length (snd qf)) <= field_limit)%N /\
  (fst qf = false -> ~ In tab (snd qf) /\ hd_error (snd qf) <> Some quotechar).

(** ** The pipeline of [run]

    [ReadFromText(..., skip_header_lines=1)] belongs to Apache Beam: the
    pipeline is taken from the lines it yields, the header already skipped.
    A [ParDo] or [Map] applies its callback to every element; an exception
    raised by any callback fails the pipeline. *)

(** [pcoll | beam.ParDo(f)] *)
Fixpoint flat_map_r {A B : Type} (f : A -> result (list B)) (l : list A)
  : result (list B) :=
  match l with
  | [] => Ok []
  | x :: xs => ys <- f x ;; zs <- flat_map_r f xs ;; Ok (ys ++ zs)
  end.

Section Pipeline.

Variable int_of_str : str -> option Z.
Variable float_of_str : str -> option Q.

(** [basic_data]: parse, clean and filter the title lines. *)
Definition basic_branch (lines : list str) : result (list record) :=
  rs <- flat_map_r (parse_csv columns_title_basic) lines ;;
  cs <- flat_map_r (fun r => c <- clean int_of_str float_of_str basic_cfg r ;; Ok [c]) rs ;;
  flat_map_r filter_basic cs.

(** [rating_data]: parse, clean and filter the rating lines. *)
Definition rating_branch (lines : list str) : result (list record) :=
  rs <- flat_map_r (parse_csv columns_ratings) lines ;;
  cs <- flat_map_r (fun r => c <- clean int_of_str float_of_str rating_cfg r ;; Ok [c]) rs ;;
  flat_map_r filter_rating cs.

(** [joined_dicts] of [run], for the grouping [grp] that [CoGroupByKey]
    makes of the two keyed collections. *)
Definition run_pipeline
  (grp : list (value * record) -> list (value * record) -> list cogroup)
  (basic_lines rating_lines : list str) : result (list record) :=
  bs <- basic_branch basic_lines ;;
  rs <- rating_branch rating_lines ;;
  mk <- key_by_tconst bs ;;
  rk <- key_by_tconst rs ;;
  Ok (map mergedicts (joined_pairs (grp mk rk))).

End Pipeline.

(** ** Dict lemmas *)

Lemma pykey_eqb_spec (k k' : pykey) : pykey_eqb k k' = true <-> k = k'.
Proof. unfold pykey_eqb; destruct (pykey_eq_dec k k'); split; congruence. Qed.

Lemma pykey_eqb_refl (k : pykey) : pykey_eqb k k = true.
Proof. apply pykey_eqb_spec; reflexivity. Qed.

Lemma pykey_eqb_neq (k k' : pykey) : k <> k' -> pykey_eqb k k' = false.
Proof. intros H; unfold pykey_eqb; destruct (pykey_eq_dec k k'); congruence. Qed.

Lemma str_eqb_spec (s t : str) : str_eqb s t = true <-> s = t.
Proof. unfold str_eqb; destruct (list_eq_dec ascii_dec s t); split; congruence. Qed.

Lemma dict_lookup_set (d : record) (k k' : pykey) (v : value) :
  dict_lookup (dict_set d k v) k' =
  if pykey_eqb k' k then Some v else dict_lookup d k'.
Proof.
  induction d as [|[k0 v0] d IH]; simpl.
  - reflexivity.
  - destruct (pykey_eqb k k0) eqn:E.
    + apply pykey_eqb_spec in E; subst k0; simpl.
      destruct (pykey_eqb k' k); reflexivity.
    + simpl. rewrite IH.
      destruct (pykey_eqb k' k0) eqn:E0; [|reflexivity].
      apply pykey_eqb_spec in E0; subst k0.
      destruct (pykey_eqb k' k) eqn:E1; [|reflexivity].
      apply pykey_eqb_spec in E1; subst k'.
      rewrite pykey_eqb_refl in E; discriminate.
Qed.

Lemma dict_lookup_app (d1 d2 : record) (k : pykey) :
  dict_lookup (d1 ++ d2) k =
  match dict_lookup d1 k with Some v => Some v | None => dict_lookup d2 k end.
Proof.
  induction d1 as [|[k0 v0] d1 IH]; simpl; [reflexivity|].
  destruct (pykey_eqb k k0); [reflexivity | exact IH].
Qed.

Lemma dict_lookup_In (d : record) (k : pykey) (v : value) :
  dict_lookup d k = Some v -> In (k, v) d.
Proof.
  induction d as [|[k0 v0] d IH]; simpl; [discriminate|].
  destruct (pykey_eqb k k0) eqn:E.
  - apply pykey_eqb_spec in E; subst; intros H; inversion H; subst; now left.
  - intros H; right; now apply IH.
Qed.

Lemma dict_lookup_none (d : record) (k : pykey) :
  dict_lookup d k = None <-> ~ In k (keys d).
Proof.
  induction d as [|[k0 v0] d IH]; simpl; [tauto|].
  destruct (pykey_eqb k k0) eqn:E.
  - apply pykey_eqb_spec in E; subst; split; [discriminate | tauto].
  - rewrite IH. assert (k0 <> k) by (intros ->; rewrite pykey_eqb_refl in E; discriminate).
    tauto.
Qed.

Lemma dict_lookup_NoDup_In (d : record) (k : pykey) (v : value) :
  NoDup (keys d) -> In (k, v) d -> dict_lookup d k = Some v.
Proof.
  induction d as [|[k0 v0] d IH]; simpl; [tauto|].
  intros Hnd Hin; inversion Hnd as [|? ? Hnin Hnd']; subst.
  destruct Hin as [Heq | Hin].
  - inversion Heq; subst; now rewrite pykey_eqb_refl.
  - destruct (pykey_eqb k k0) eqn:E; [|now apply IH].
    apply pykey_eqb_spec in E; subst.
    exfalso; apply Hnin; change k0 with (fst (k0, v)); now apply in_map.
Qed.

Lemma dict_lookup_rev (d : record) (k : pykey) :
  NoDup (keys d) -> dict_lookup (rev d) k = dict_lookup d k.
Proof.
  intros Hnd.
  assert (Hnd' : NoDup (keys (rev d))) by (unfold keys; rewrite map_rev; now apply NoDup_rev).
  destruct (dict_lookup d k) as [v|] eqn:E.
  - apply dict_lookup_NoDup_In; [assumption|].
    apply in_rev; rewrite rev_involutive; now apply dict_lookup_In.
  - apply dict_lookup_none; apply dict_lookup_none in E.
    unfold keys in *; rewrite map_rev; now rewrite <- in_rev.
Qed.

Lemma dict_lookup_fold_set (l d : record) (k : pykey) :
  dict_lookup (fold_left (fun acc kv => dict_set acc (fst kv) (snd kv)) l d) k =
  match dict_lookup (rev l) k with Some v => Some v | None => dict_lookup d k end.
Proof.
  revert d; induction l as [|[k0 v0] l IH]; intros d; simpl; [reflexivity|].
  rewrite IH, dict_lookup_app, dict_lookup_set; simpl.
  destruct (dict_lookup (rev l) k); [reflexivity|].
  destruct (pykey_eqb k k0); reflexivity.
Qed.

Lemma dict_lookup_map_vals (h : pykey -> value -> value) (r : record) (k : pykey) :
  dict_lookup (map_vals h r) k = option_map (h k) (dict_lookup r k).
Proof.
  induction r as [|[k0 v0] r IH]; simpl; [reflexivity|].
  destruct (pykey_eqb k k0) eqn:E; [|exact IH].
  apply pykey_eqb_spec in E; subst; reflexivity.
Qed.

Lemma keys_map_vals (h : pykey -> value -> value) (r : record) :
  keys (map_vals h r) = keys r.
Proof. unfold keys, map_vals; rewrite map_map; reflexivity. Qed.

Lemma map_vals_map_vals (h1 h2 : pykey -> value -> value) (r : record) :
  map_vals h2 (map_vals h1 r) = map_vals (fun k v => h2 k (h1 k v)) r.
Proof. unfold map_vals; rewrite map_map; reflexivity. Qed.

Lemma map_vals_ext (h1 h2 : pykey -> value -> value) (r : record) :
  (forall k v, h1 k v = h2 k v) -> map_vals h1 r = map_vals h2 r.
Proof. intros H; unfold map_vals; apply map_ext; intros; now rewrite H. Qed.

Lemma map_vals_notin (r : record) (k : pykey) (g : value -> value) :
  ~ In k (keys r) ->
  map_vals (fun k' w => if pykey_eqb k' k then g w else w) r = r.
Proof.
  induction r as [|[k0 v0] r IH]; simpl; [reflexivity|].
  intros Hn. rewrite pykey_eqb_neq by (intros ->; apply Hn; now left).
  f_equal. apply IH. intros H; apply Hn; now right.
Qed.

(** Assigning an existing key of a dict rewrites the value in place. *)
Lemma dict_set_as_map (r : record) (k : pykey) (v : value) (g : value -> value) :
  NoDup (keys r) -> dict_lookup r k = Some v ->
  dict_set r k (g v) =
  map_vals (fun k' w => if pykey_eqb k' k then g w else w) r.
Proof.
  induction r as [|[k0 v0] r IH]; simpl; [discriminate|].
  intros Hnd Hl; inversion Hnd as [|? ? Hnin Hnd']; subst.
  destruct (pykey_eqb k k0) eqn:E.
  - apply pykey_eqb_spec in E; subst k0. inversion Hl; subst.
    rewrite pykey_eqb_refl; f_equal. symmetry; now apply map_vals_notin.
  - rewrite pykey_eqb_neq by (intros ->; rewrite pykey_eqb_refl in E; discriminate).
    f_equal. now apply IH.
Qed.

Lemma in_cols_cons (k : pykey) (c : str) (cs : list str) :
  in_cols k (c :: cs) = (pykey_eqb k (Col c) || in_cols k cs)%bool.
Proof.
  destruct k as [c0|]; unfold in_cols; cbn [existsb].
  - destruct (str_eqb c0 c) eqn:E; destruct (pykey_eqb (Col c0) (Col c)) eqn:E';
      try reflexivity.
    + apply str_eqb_spec in E; subst; now rewrite pykey_eqb_refl in E'.
    + apply pykey_eqb_spec in E'; inversion E'; subst.
      assert (str_eqb c c = true) by now apply str_eqb_spec. congruence.
  - rewrite pykey_eqb_neq by discriminate; reflexivity.
Qed.

Lemma in_cols_Col (c : str) (cols : list str) :
  in_cols (Col c) cols = true <-> In c cols.
Proof.
  induction cols as [|c0 cs IH]; [simpl; split; [discriminate | tauto]|].
  rewrite in_cols_cons, Bool.orb_true_iff, IH, pykey_eqb_spec; simpl.
  split; intros [H|H]; try (now right); left; congruence.
Qed.

Lemma in_cols_Col_false (c : str) (cols : list str) :
  in_cols (Col c) cols = false <-> ~ In c cols.
Proof. rewrite <- in_cols_Col; destruct (in_cols (Col c) cols); split; congruence. Qed.

Section UpdateCols.

Variable f : value -> result value.

Lemma update_cols_out (cols : list str) (r r' : record) (c : str) :
  update_cols f cols r = Ok r' -> ~ In c cols ->
  dict_lookup r' (Col c) = dict_lookup r (Col c).
Proof.
  revert r; induction cols as [|c0 cs IH]; intros r Hu Hn; simpl in Hu.
  - now inversion Hu.
  - unfold dict_get in Hu.
    destruct (dict_lookup r (Col c0)) as [v|]; [|discriminate]; simpl in Hu.
    destruct (f v) as [w|]; [|discriminate]; simpl in Hu.
    rewrite (IH _ Hu) by (intros H; apply Hn; now right).
    rewrite dict_lookup_set, pykey_eqb_neq; [reflexivity|].
    intros H; inversion H; subst; apply Hn; now left.
Qed.

Lemma update_cols_post (P : value -> Prop) (cols : list str) (r r' : record)
  (c : str) :
  update_cols f cols r = Ok r' -> (forall v w, f v = Ok w -> P w) ->
  In c cols -> exists w, dict_lookup r' (Col c) = Some w /\ P w.
Proof.
  intros Hu HP; revert r Hu; induction cols as [|c0 cs IH]; intros r Hu Hin;
    simpl in Hu; [destruct Hin|].
  unfold dict_get in Hu.
  destruct (dict_lookup r (Col c0)) as [v|]; [|discriminate]; simpl in Hu.
  destruct (f v) as [w|] eqn:Ef; [|discriminate]; simpl in Hu.
  destruct (in_dec (list_eq_dec ascii_dec) c cs) as [Hcs|Hcs]; [now apply (IH _ Hu)|].
  destruct Hin as [<-|Hin]; [|contradiction].
  exists w; split; [|now apply (HP v)].
  rewrite (update_cols_out _ _ _ _ Hu Hcs), dict_lookup_set, pykey_eqb_refl.
  reflexivity.
Qed.

Lemma update_cols_in (cols : list str) (r r' : record) (c : str) (v : value) :
  NoDup cols -> In c cols -> update_cols f cols r = Ok r' ->
  dict_lookup r (Col c) = Some v ->
  exists w, f v = Ok w /\ dict_lookup r' (Col c) = Some w.
Proof.
  revert r; induction cols as [|c0 cs IH]; intros r Hnd Hin Hu Hl;
    simpl in Hu; [destruct Hin|].
  inversion Hnd as [|? ? Hnin Hnd']; subst.
  unfold dict_get in Hu.
  destruct (dict_lookup r (Col c0)) as [v0|] eqn:E0; [|discriminate]; simpl in Hu.
  destruct (f v0) as [w0|] eqn:Ef; [|discriminate]; simpl in Hu.
  destruct Hin as [<-|Hin].
  - rewrite Hl in E0; inversion E0; subst.
    exists w0; split; [assumption|].
    rewrite (update_cols_out _ _ _ _ Hu Hnin), dict_lookup_set, pykey_eqb_refl.
    reflexivity.
  - apply (IH _ Hnd' Hin Hu).
    rewrite dict_lookup_set, pykey_eqb_neq; [assumption|].
    intros H; inversion H; subst; contradiction.
Qed.

Lemma update_cols_map (g : value -> value) (cols : list str) (r : record) :
  NoDup cols -> NoDup (keys r) ->
  (forall c, In c cols ->
     exists v, dict_lookup r (Col c) = Some v /\ f v = Ok (g v)) ->
  update_cols f cols r =
  Ok (map_vals (fun k v => if in_cols k cols then g v else v) r).
Proof.
  revert r; induction cols as [|c cs IH]; intros r Hnd Hk Hall; simpl.
  - f_equal. unfold map_vals; rewrite <- (map_id r) at 1; apply map_ext.
    intros [[k|] v]; reflexivity.
  - inversion Hnd as [|? ? Hnin Hnd']; subst.
    destruct (Hall c (or_introl eq_refl)) as [v [Hl Hf]].
    unfold dict_get; rewrite Hl; simpl; rewrite Hf; simpl.
    rewrite (dict_set_as_map _ _ _ g Hk Hl).
    rewrite IH; [| assumption | now rewrite keys_map_vals |].
    + f_equal. rewrite map_vals_map_vals. apply map_vals_ext; intros k w.
      rewrite in_cols_cons.
      destruct (pykey_eqb k (Col c)) eqn:E; simpl.
      * apply pykey_eqb_spec in E; subst.
        apply in_cols_Col_false in Hnin; now rewrite Hnin.
      * reflexivity.
    + intros c' Hc'. destruct (Hall c' (or_intror Hc')) as [v' [Hl' Hf']].
      exists v'; split; [|assumption].
      rewrite dict_lookup_map_vals, Hl'; simpl.
      rewrite pykey_eqb_neq; [reflexivity|].
      intros H; inversion H; subst; contradiction.
Qed.

End UpdateCols.

(** ** Lemmas on [CleanData] *)

Lemma NoDup_app_disjoint {A : Type} (l1 l2 : list A) (x : A) :
  NoDup (l1 ++ l2) -> In x l1 -> In x l2 -> False.
Proof.
  induction l1 as [|a l1 IH]; simpl; [tauto|].
  intros Hnd Hin1 Hin2; inversion Hnd as [|? ? Hn Hnd']; subst.
  destruct Hin1 as [->|Hin1]; [|now apply IH].
  apply Hn; apply in_or_app; now right.
Qed.

Lemma cfg_ok_disjoint (cfg : clean_config) (k : pykey) :
  cfg_ok cfg ->
  (in_cols k (bool_cols cfg) = true ->
     in_cols k (int_cols cfg) = false /\ in_cols k (float_cols cfg) = false) /\
  (in_cols k (int_cols cfg) = true -> in_cols k (float_cols cfg) = false).
Proof.
  unfold cfg_ok, all_cols; intros H.
  destruct k as [c|]; [|simpl; split; discriminate].
  rewrite !in_cols_Col, !in_cols_Col_false.
  split; [intros H1; split; intros H2 | intros H1 H2].
  - apply (NoDup_app_disjoint _ _ _ H H1); apply in_or_app; now left.
  - apply (NoDup_app_disjoint _ _ _ H H1); apply in_or_app; now right.
  - apply NoDup_app_remove_l in H. exact (NoDup_app_disjoint _ _ _ H H1 H2).
Qed.

Lemma cfg_ok_NoDup (cfg : clean_config) :
  cfg_ok cfg ->
  NoDup (bool_cols cfg) /\ NoDup (int_cols cfg) /\ NoDup (float_cols cfg).
Proof.
  unfold cfg_ok, all_cols; intros H; split; [|split].
  - now apply NoDup_app_remove_r in H.
  - apply NoDup_app_remove_l in H; now apply NoDup_app_remove_r in H.
  - now do 2 apply NoDup_app_remove_l in H.
Qed.

Lemma unsentinel_idem (v : value) : unsentinel (unsentinel v) = unsentinel v.
Proof. unfold unsentinel; destruct (eq_str v (lit "\N")) eqn:E; [reflexivity|now rewrite E]. Qed.

Section CleanProofs.

Variable int_of_str : str -> option Z.
Variable float_of_str : str -> option Q.

Lemma parse_numeric_int (cfg : clean_config) (r : record) :
  parse_numeric int_of_str float_of_str cfg r (lit "int") =
  update_cols (coerce_numeric (int_func int_of_str)) (int_cols cfg) r.
Proof. reflexivity. Qed.

Lemma parse_numeric_float (cfg : clean_config) (r : record) :
  parse_numeric int_of_str float_of_str cfg r (lit "float") =
  update_cols (coerce_numeric (float_func float_of_str)) (float_cols cfg) r.
Proof. reflexivity. Qed.

Lemma map_sentinel_as_map (r : record) :
  map_sentinel r = map_vals (fun _ v => unsentinel v) r.
Proof. reflexivity. Qed.

(** [CleanData.process] as a rewriting of every value, when each configured
    column is present and its numeric conversions do not raise. *)
Lemma clean_as_map (cfg : clean_config) (r : record) (gi gf : value -> value) :
  cfg_ok cfg -> NoDup (keys r) ->
  (forall c, In c (all_cols cfg) -> dict_lookup r (Col c) <> None) ->
  (forall c v, In c (int_cols cfg) -> dict_lookup r (Col c) = Some v ->
     coerce_numeric (int_func int_of_str) (unsentinel v) = Ok (gi (unsentinel v))) ->
  (forall c v, In c (float_cols cfg) -> dict_lookup r (Col c) = Some v ->
     coerce_numeric (float_func float_of_str) (unsentinel v) =
     Ok (gf (unsentinel v))) ->
  clean int_of_str float_of_str cfg r =
  Ok (map_vals (fun k v => clean_value cfg gi gf k (unsentinel v)) r).
Proof.
  intros Hok Hk Hpres Hi Hf.
  destruct (cfg_ok_NoDup cfg Hok) as [Hb [Hin Hfn]].
  assert (Hpres' : forall c, In c (all_cols cfg) ->
            exists v, dict_lookup r (Col c) = Some v).
  { intros c Hc; specialize (Hpres c Hc).
    destruct (dict_lookup r (Col c)); [now eexists | contradiction]. }
  unfold clean; rewrite map_sentinel_as_map.
  rewrite (update_cols_map coerce_bool (fun v => VBool (negb (eq_str v (lit "0")))));
    [| assumption | now rewrite keys_map_vals |].
  2:{ intros c Hc. destruct (Hpres' c) as [v Hv];
      [unfold all_cols; apply in_or_app; now left|].
      exists (unsentinel v); rewrite dict_lookup_map_vals, Hv; split; reflexivity. }
  cbn [bind].
  rewrite parse_numeric_int, (update_cols_map _ gi); [| assumption
    | now rewrite !keys_map_vals |].
  2:{ intros c Hc. destruct (Hpres' c) as [v Hv];
      [unfold all_cols; apply in_or_app; right; apply in_or_app; now left|].
      exists (unsentinel v); rewrite !dict_lookup_map_vals, Hv; cbn [option_map].
      assert (Hnb : in_cols (Col c) (bool_cols cfg) = false).
      { destruct (in_cols (Col c) (bool_cols cfg)) eqn:E; [|reflexivity].
        destruct (cfg_ok_disjoint cfg (Col c) Hok) as [H1 _].
        apply H1 in E as [E _]. apply in_cols_Col in Hc; congruence. }
      rewrite Hnb; split; [reflexivity|]. now apply (Hi c v). }
  cbn [bind].
  rewrite parse_numeric_float, (update_cols_map _ gf); [| assumption
    | now rewrite !keys_map_vals |].
  2:{ intros c Hc. destruct (Hpres' c) as [v Hv];
      [unfold all_cols; apply in_or_app; right; apply in_or_app; now right|].
      exists (unsentinel v); rewrite !dict_lookup_map_vals, Hv; cbn [option_map].
      assert (Hc' := Hc); apply in_cols_Col in Hc'.
      assert (Hnb : in_cols (Col c) (bool_cols cfg) = false).
      { destruct (in_cols (Col c) (bool_cols cfg)) eqn:E; [|reflexivity].
        destruct (cfg_ok_disjoint cfg (Col c) Hok) as [H1 _].
        apply H1 in E as [_ E]; congruence. }
      assert (Hni : in_cols (Col c) (int_cols cfg) = false).
      { destruct (in_cols (Col c) (int_cols cfg)) eqn:E; [|reflexivity].
        destruct (cfg_ok_disjoint cfg (Col c) Hok) as [_ H2].
        apply H2 in E; congruence. }
      rewrite Hnb, Hni; split; [reflexivity|]. now apply (Hf c v). }
  f_equal. rewrite !map_vals_map_vals. apply map_vals_ext; intros k v.
  destruct (cfg_ok_disjoint cfg k Hok) as [H1 H2]. unfold clean_value.
  destruct (in_cols k (bool_cols cfg)) eqn:Eb.
  - destruct (H1 eq_refl) as [-> ->]; reflexivity.
  - destruct (in_cols k (int_cols cfg)) eqn:Ei.
    + rewrite (H2 eq_refl); reflexivity.
    + reflexivity.
Qed.


Lemma coerce_int_raw (u : value) :
  raw_value u ->
  coerce_numeric (int_func int_of_str) u = Ok (numeric_value int_of_str VInt u).
Proof.
  intros [->|[s ->]]; [reflexivity|].
  unfold coerce_numeric, numeric_value; simpl.
  destruct (str_eqb s []); simpl; [reflexivity|].
  unfold int_func, py_int; destruct (int_of_str s); reflexivity.
Qed.

Lemma coerce_float_raw (u : value) :
  raw_value u ->
  coerce_numeric (float_func float_of_str) u =
  Ok (numeric_value float_of_str VFloat u).
Proof.
  intros [->|[s ->]]; [reflexivity|].
  unfold coerce_numeric, numeric_value; simpl.
  destruct (str_eqb s []); simpl; [reflexivity|].
  unfold float_func, py_float; destruct (float_of_str s); reflexivity.
Qed.

Lemma raw_value_unsentinel (v : value) : raw_value v -> raw_value (unsentinel v).
Proof.
  unfold unsentinel; destruct (eq_str v (lit "\N")); [intros; now left | tauto].
Qed.

Lemma clean_value_int (cfg : clean_config) (gi gf : value -> value) (c : str)
  (u : value) :
  cfg_ok cfg -> In c (int_cols cfg) -> clean_value cfg gi gf (Col c) u = gi u.
Proof.
  intros Hok Hc; unfold clean_value; apply in_cols_Col in Hc.
  destruct (in_cols (Col c) (bool_cols cfg)) eqn:Eb; [|now rewrite Hc].
  destruct (cfg_ok_disjoint cfg (Col c) Hok) as [H1 _].
  apply H1 in Eb as [E _]; congruence.
Qed.

Lemma clean_value_float (cfg : clean_config) (gi gf : value -> value) (c : str)
  (u : value) :
  cfg_ok cfg -> In c (float_cols cfg) -> clean_value cfg gi gf (Col c) u = gf u.
Proof.
  intros Hok Hc; unfold clean_value; apply in_cols_Col in Hc.
  destruct (in_cols (Col c) (bool_cols cfg)) eqn:Eb.
  { destruct (cfg_ok_disjoint cfg (Col c) Hok) as [H1 _].
    apply H1 in Eb as [_ E]; congruence. }
  destruct (in_cols (Col c) (int_cols cfg)) eqn:Ei; [|now rewrite Hc].
  destruct (cfg_ok_disjoint cfg (Col c) Hok) as [_ H2].
  apply H2 in Ei; congruence.
Qed.

(** On a record as [ParseCsv] leaves it, [CleanData.process] raises
    nothing and rewrites each value. *)
Lemma clean_raw (cfg : clean_config) (r0 : record) :
  cfg_ok cfg -> NoDup (keys r0) -> raw_for cfg r0 ->
  clean int_of_str float_of_str cfg r0 =
  Ok (map_vals (fun k v => clean_value cfg (numeric_value int_of_str VInt)
                             (numeric_value float_of_str VFloat) k (unsentinel v)) r0).
Proof.
  intros Hok Hk Hraw.
  apply clean_as_map; [assumption | assumption | | |].
  - intros c Hc; destruct (Hraw c Hc) as [v [Hv _]]; congruence.
  - intros c v Hc Hv.
    destruct (Hraw c) as [v' [Hv' Hr]];
      [unfold all_cols; apply in_or_app; right; apply in_or_app; now left|].
    rewrite Hv in Hv'; inversion Hv'; subst.
    now apply coerce_int_raw, raw_value_unsentinel.
  - intros c v Hc Hv.
    destruct (Hraw c) as [v' [Hv' Hr]];
      [unfold all_cols; apply in_or_app; right; apply in_or_app; now right|].
    rewrite Hv in Hv'; inversion Hv'; subst.
    now apply coerce_float_raw, raw_value_unsentinel.
Qed.

Lemma eq_str_unsentinel_zero (v : value) :
  eq_str (unsentinel v) (lit "0") = eq_str v (lit "0").
Proof.
  unfold unsentinel; destruct (eq_str v (lit "\N")) eqn:E; [|reflexivity].
  destruct v; try discriminate; simpl in E.
  apply str_eqb_spec in E; subst; reflexivity.
Qed.

(** The value [CleanData.process] leaves in a boolean column. *)
Lemma clean_bool_lookup (cfg : clean_config) (r0 r : record) (c : str)
  (v : value) :
  In c (bool_cols cfg) -> NoDup (bool_cols cfg) ->
  ~ In c (int_cols cfg) -> ~ In c (float_cols cfg) ->
  clean int_of_str float_of_str cfg r0 = Ok r ->
  dict_lookup r0 (Col c) = Some v ->
  dict_lookup r (Col c) = Some (VBool (negb (eq_str v (lit "0")))).
Proof.
  intros Hin Hnd Hni Hnf Hc Hv; unfold clean in Hc.
  destruct (update_cols coerce_bool (bool_cols cfg) (map_sentinel r0))
    as [r2|] eqn:E2; [|discriminate]; cbn [bind] in Hc.
  rewrite parse_numeric_int in Hc.
  destruct (update_cols (coerce_numeric (int_func int_of_str)) (int_cols cfg) r2)
    as [r3|] eqn:E3; [|discriminate]; cbn [bind] in Hc.
  rewrite parse_numeric_float in Hc.
  rewrite (update_cols_out _ _ _ _ _ Hc Hnf), (update_cols_out _ _ _ _ _ E3 Hni).
  destruct (update_cols_in coerce_bool _ _ _ c (unsentinel v) Hnd Hin E2)
    as [w [Hw Hl]].
  - rewrite map_sentinel_as_map, dict_lookup_map_vals, Hv; reflexivity.
  - unfold coerce_bool in Hw; inversion Hw; subst.
    rewrite Hl, eq_str_unsentinel_zero; reflexivity.
Qed.

Lemma numeric_value_int_shape (u : value) :
  numeric_value int_of_str VInt u = VNone \/
  exists z, numeric_value int_of_str VInt u = VInt z.
Proof.
  unfold numeric_value; destruct u; auto.
  destruct (str_eqb s []); auto. destruct (int_of_str s); eauto.
Qed.

Lemma numeric_value_float_shape (u : value) :
  numeric_value float_of_str VFloat u = VNone \/
  exists q, numeric_value float_of_str VFloat u = VFloat q.
Proof.
  unfold numeric_value; destruct u; auto.
  destruct (str_eqb s []); auto. destruct (float_of_str s); eauto.
Qed.

End CleanProofs.

Lemma in_cols_app (k : pykey) (l1 l2 : list str) :
  in_cols k (l1 ++ l2) = (in_cols k l1 || in_cols k l2)%bool.
Proof. destruct k; simpl; [apply existsb_app | reflexivity]. Qed.

Lemma numeric_value_coerced {N : Type} (parse : str -> option N)
  (wrap : N -> value) (v : value) :
  coerced_as parse wrap v (numeric_value parse wrap (unsentinel v)).
Proof.
  split; [|split].
  - intros [->|[->| ->]]; reflexivity.
  - intros s n -> Hne Hns Hp. unfold unsentinel, eq_str.
    destruct (str_eqb s (lit "\N")) eqn:E; [apply str_eqb_spec in E; contradiction|].
    unfold numeric_value; destruct (str_eqb s []) eqn:E'; [apply str_eqb_spec in E'; contradiction|].
    now rewrite Hp.
  - intros s -> Hp. unfold unsentinel, eq_str.
    destruct (str_eqb s (lit "\N")); [reflexivity|].
    unfold numeric_value; destruct (str_eqb s []); [reflexivity|]. now rewrite Hp.
Qed.

(** * The claims *)

Section NormalizerClaims.

Variable int_of_str : str -> option Z.
Variable float_of_str : str -> option Q.

(** C5: in a boolean column, [CleanData] maps the raw value ["0"] to [False]
    and any other present value (["1"], the empty string, ["foo"], ...) to
    [True]. *)
Theorem clean_bool_field (cfg : clean_config) (r0 r : record) (c : str)
  (v : value) :
  In c (bool_cols cfg) -> NoDup (bool_cols cfg) ->
  ~ In c (int_cols cfg) -> ~ In c (float_cols cfg) ->
  clean int_of_str float_of_str cfg r0 = Ok r ->
  dict_lookup r0 (Col c) = Some v ->
  (v = VStr (lit "0") -> dict_lookup r (Col c) = Some (VBool false)) /\
  (v <> VNone -> v <> VStr (lit "0") -> dict_lookup r (Col c) = Some (VBool true)).
Proof.
  intros Hin Hnd Hni Hnf Hc Hv.
  rewrite (clean_bool_lookup int_of_str float_of_str cfg r0 r c v Hin Hnd Hni Hnf Hc Hv).
  split.
  - intros ->; reflexivity.
  - intros _ H0. destruct v; try reflexivity. cbn [eq_str].
    destruct (str_eqb s (lit "0")) eqn:E; [|reflexivity].
    apply str_eqb_spec in E; subst; contradiction.
Qed.

(** C10: in a boolean column, the sentinel ["\N"], which the first step maps
    to [None], comes out as [True], not absent. *)
Theorem clean_bool_sentinel (cfg : clean_config) (r0 r : record) (c : str) :
  In c (bool_cols cfg) -> NoDup (bool_cols cfg) ->
  ~ In c (int_cols cfg) -> ~ In c (float_cols cfg) ->
  clean int_of_str float_of_str cfg r0 = Ok r ->
  dict_lookup r0 (Col c) = Some (VStr (lit "\N")) ->
  dict_lookup r (Col c) = Some (VBool true).
Proof.
  intros Hin Hnd Hni Hnf Hc Hv.
  rewrite (clean_bool_lookup int_of_str float_of_str cfg r0 r c _ Hin Hnd Hni Hnf Hc Hv).
  reflexivity.
Qed.

(** C6: on a record as [ParseCsv] leaves it, [CleanData] raises no
    exception, and each integer or float column is absent when its raw value
    is absent, the sentinel or empty, the parsed number when the parse
    succeeds, and absent when the parse fails (e.g. on ["N/A"]). *)
Theorem clean_numeric_fields (cfg : clean_config) (r0 : record) :
  cfg_ok cfg -> NoDup (keys r0) -> raw_for cfg r0 ->
  exists r, clean int_of_str float_of_str cfg r0 = Ok r /\
    (forall c v, In c (int_cols cfg) -> dict_lookup r0 (Col c) = Some v ->
       exists w, dict_lookup r (Col c) = Some w /\ coerced_as int_of_str VInt v w) /\
    (forall c v, In c (float_cols cfg) -> dict_lookup r0 (Col c) = Some v ->
       exists w, dict_lookup r (Col c) = Some w /\ coerced_as float_of_str VFloat v w).
Proof.
  intros Hok Hk Hraw.
  eexists; split; [apply (clean_raw int_of_str float_of_str cfg r0 Hok Hk Hraw)|].
  split; intros c v Hc Hv; rewrite dict_lookup_map_vals, Hv; eexists; split;
    try reflexivity.
  - rewrite clean_value_int by assumption. apply numeric_value_coerced.
  - rewrite clean_value_float by assumption. apply numeric_value_coerced.
Qed.

(** C7 (as amended): applying [CleanData] to its own output turns every
    boolean column into [True] and every integer or float column that is
    zero into [None], and leaves the rest unchanged; so it is not
    idempotent in general. *)
Theorem clean_twice (cfg : clean_config) (r0 : record) :
  cfg_ok cfg -> NoDup (keys r0) -> raw_for cfg r0 ->
  exists r1, clean int_of_str float_of_str cfg r0 = Ok r1 /\
    clean int_of_str float_of_str cfg r1 = Ok (map_vals (renormalize cfg) r1).
Proof.
  intros Hok Hk Hraw.
  set (h1 := fun k v => clean_value cfg (numeric_value int_of_str VInt)
                          (numeric_value float_of_str VFloat) k (unsentinel v)).
  exists (map_vals h1 r0); split; [now apply clean_raw|].
  set (g := fun u => if truthy u then u else VNone).
  rewrite (clean_as_map int_of_str float_of_str cfg (map_vals h1 r0) g g Hok).
  - f_equal. rewrite !map_vals_map_vals. apply map_vals_ext; intros k v.
    subst h1 g; unfold clean_value, renormalize; rewrite in_cols_app.
    destruct (in_cols k (bool_cols cfg)); [reflexivity|].
    destruct (in_cols k (int_cols cfg)).
    + destruct (numeric_value_int_shape int_of_str (unsentinel v)) as [-> | [z ->]];
        reflexivity.
    + destruct (in_cols k (float_cols cfg)).
      * destruct (numeric_value_float_shape float_of_str (unsentinel v))
          as [-> | [q ->]]; reflexivity.
      * apply unsentinel_idem.
  - now rewrite keys_map_vals.
  - intros c Hc; rewrite dict_lookup_map_vals.
    destruct (Hraw c Hc) as [v [Hv _]]; rewrite Hv; discriminate.
  - intros c v Hc Hv. rewrite dict_lookup_map_vals in Hv.
    destruct (dict_lookup r0 (Col c)) as [v0|]; inversion Hv; subst; clear Hv.
    subst h1; simpl; rewrite clean_value_int by assumption.
    destruct (numeric_value_int_shape int_of_str (unsentinel v0)) as [-> | [z ->]];
      [reflexivity|].
    subst g; unfold coerce_numeric; simpl; destruct (negb (z =? 0)%Z); reflexivity.
  - intros c v Hc Hv. rewrite dict_lookup_map_vals in Hv.
    destruct (dict_lookup r0 (Col c)) as [v0|]; inversion Hv; subst; clear Hv.
    subst h1; simpl; rewrite clean_value_float by assumption.
    destruct (numeric_value_float_shape float_of_str (unsentinel v0))
      as [-> | [q ->]]; [reflexivity|].
    subst g; unfold coerce_numeric; simpl; destruct (negb (Qeq_bool q 0)); reflexivity.
Qed.

End NormalizerClaims.

(** ** Lemmas on the filters *)

Lemma update_cols_nil (f : value -> result value) (r r' : record) :
  update_cols f [] r = Ok r' -> r' = r.
Proof. simpl; intros H; now inversion H. Qed.

Lemma Qle_bool_Z (a b : Z) : Qle_bool (a # 1) (inject_Z b) = Z.leb a b.
Proof. unfold Qle_bool; simpl; now rewrite !Z.mul_1_r. Qed.

Section FilterLemmas.

Variable int_of_str : str -> option Z.
Variable float_of_str : str -> option Q.

Lemma clean_rating_average (r0 r : record) :
  clean int_of_str float_of_str rating_cfg r0 = Ok r ->
  dict_lookup r (Col (lit "averageRating")) = Some VNone \/
  exists q, dict_lookup r (Col (lit "averageRating")) = Some (VFloat q).
Proof.
  unfold clean; intros Hc.
  destruct (update_cols coerce_bool (bool_cols rating_cfg) (map_sentinel r0))
    as [r2|]; [|discriminate]; cbn [bind] in Hc.
  rewrite parse_numeric_int in Hc.
  destruct (update_cols (coerce_numeric (int_func int_of_str)) (int_cols rating_cfg) r2)
    as [r3|]; [|discriminate]; cbn [bind] in Hc.
  rewrite parse_numeric_float in Hc.
  destruct (update_cols_post _ (fun w => w = VNone \/ exists q, w = VFloat q)
              _ _ _ (lit "averageRating") Hc) as [w [Hw [->|[q ->]]]].
  - intros v w; unfold coerce_numeric, float_func.
    destruct (truthy v); [|intros H; inversion H; now left].
    destruct (py_float float_of_str v) as [q|[]]; simpl; intros H; inversion H;
      subst; eauto.
  - now left.
  - now left.
  - right; eauto.
Qed.

Lemma clean_basic_fields (r0 r : record) :
  clean int_of_str float_of_str basic_cfg r0 = Ok r ->
  dict_lookup r0 (Col (lit "titleType")) <> None ->
  (exists t, dict_lookup r (Col (lit "titleType")) = Some t) /\
  (exists b, dict_lookup r (Col (lit "isAdult")) = Some (VBool b)) /\
  (dict_lookup r (Col (lit "startYear")) = Some VNone \/
   exists z, dict_lookup r (Col (lit "startYear")) = Some (VInt z)).
Proof.
  unfold clean; intros Hc Ht.
  destruct (update_cols coerce_bool (bool_cols basic_cfg) (map_sentinel r0))
    as [r2|] eqn:E2; [|discriminate]; cbn [bind] in Hc.
  rewrite parse_numeric_int in Hc.
  destruct (update_cols (coerce_numeric (int_func int_of_str)) (int_cols basic_cfg) r2)
    as [r3|] eqn:E3; [|discriminate]; cbn [bind] in Hc.
  rewrite parse_numeric_float in Hc; apply update_cols_nil in Hc; subst r.
  split; [|split].
  - rewrite (update_cols_out _ _ _ _ _ E3), (update_cols_out _ _ _ _ _ E2)
      by (simpl; intuition discriminate).
    rewrite map_sentinel_as_map, dict_lookup_map_vals.
    destruct (dict_lookup r0 (Col (lit "titleType"))); [eexists; reflexivity|].
    contradiction.
  - rewrite (update_cols_out _ _ _ _ _ E3) by (simpl; intuition discriminate).
    destruct (update_cols_post _ (fun w => exists b, w = VBool b) _ _ _
                (lit "isAdult") E2) as [w [Hw [b ->]]].
    + intros v w H; inversion H; eauto.
    + now left.
    + eauto.
  - destruct (update_cols_post _ (fun w => w = VNone \/ exists z, w = VInt z)
                _ _ _ (lit "startYear") E3) as [w [Hw [->|[z ->]]]].
    + intros v w; unfold coerce_numeric, int_func.
      destruct (truthy v); [|intros H; inversion H; now left].
      destruct (py_int int_of_str v) as [z|[]]; simpl; intros H; inversion H;
        subst; eauto.
    + now left.
    + now left.
    + right; eauto.
Qed.

End FilterLemmas.

(** C2: merging a joined pair gives a record whose fields are those of both
    records; on a field both define, the rating record's value wins. *)
Theorem mergedicts_union (a b : record) :
  NoDup (keys a) -> NoDup (keys b) ->
  forall k,
    dict_lookup (mergedicts (a, b)) k =
      match dict_lookup b k with Some v => Some v | None => dict_lookup a k end /\
    (In k (keys (mergedicts (a, b))) <-> In k (keys a) \/ In k (keys b)).
Proof.
  intros Ha Hb k.
  assert (Hl : dict_lookup (mergedicts (a, b)) k =
            match dict_lookup b k with Some v => Some v | None => dict_lookup a k end).
  { unfold mergedicts; simpl fst; simpl snd.
    rewrite dict_lookup_fold_set, rev_app_distr, dict_lookup_app,
      dict_lookup_rev, dict_lookup_rev by assumption.
    destruct (dict_lookup b k); [reflexivity|].
    destruct (dict_lookup a k); reflexivity. }
  split; [exact Hl|].
  assert (Hiff : forall d, In k (keys d) <-> dict_lookup d k <> None).
  { intros d; split; intros H.
    - intros H'; apply dict_lookup_none in H'; contradiction.
    - destruct (in_dec pykey_eq_dec k (keys d)) as [|Hn]; [assumption|].
      apply dict_lookup_none in Hn; contradiction. }
  rewrite !Hiff, Hl.
  destruct (dict_lookup b k), (dict_lookup a k); split; intros H;
    try (now left); try (now right); try discriminate; try congruence.
  destruct H as [H|H]; congruence.
Qed.

Lemma eq_str_movie (t : value) :
  eq_str t (lit "movie") = true <-> t = VStr (lit "movie").
Proof.
  destruct t; cbn [eq_str]; try (split; congruence).
  rewrite str_eqb_spec; split; congruence.
Qed.

(** C4: on a normalized rating record, [FilterRatingData] keeps the record
    exactly when [averageRating] is present and at least 5.0, and drops it
    otherwise without an error; e.g. 7.2 passes, 4.9 and an absent rating
    do not. *)
Theorem filter_rating_spec (int_of_str : str -> option Z)
  (float_of_str : str -> option Q) (r0 r : record) :
  clean int_of_str float_of_str rating_cfg r0 = Ok r ->
  (exists keep : bool, filter_rating r = Ok (if keep then [r] else []) /\
     (keep = true <-> exists q,
        dict_lookup r (Col (lit "averageRating")) = Some (VFloat q) /\ (5 <= q)%Q)) /\
  filter_rating (ex_rating (VFloat (72 # 10))) = Ok [ex_rating (VFloat (72 # 10))] /\
  filter_rating (ex_rating (VFloat (49 # 10))) = Ok [] /\
  filter_rating (ex_rating VNone) = Ok [].
Proof.
  intros Hc; split; [| split; [|split]]; [| vm_compute; reflexivity ..].
  destruct (clean_rating_average _ _ _ _ Hc) as [Hn | [q Hq]].
  - exists false; unfold filter_rating, dict_get; rewrite Hn; cbn [bind truthy].
    split; [reflexivity|]. split; [discriminate|]. intros [q [H _]]; congruence.
  - exists (Qle_bool (5 # 1) q); unfold filter_rating, dict_get; rewrite Hq.
    cbn [bind truthy py_ge]; split.
    + destruct (Qeq_bool q 0) eqn:Ez; cbn [negb]; [|reflexivity].
      destruct (Qle_bool (5 # 1) q) eqn:El; [|reflexivity].
      apply Qeq_bool_iff in Ez; apply Qle_bool_iff in El.
      rewrite Ez in El; unfold Qle in El; simpl in El; lia.
    + rewrite Qle_bool_iff; split.
      * intros H; exists q; split; [reflexivity | exact H].
      * intros [q' [H H']]; inversion H; subst; exact H'.
Qed.

(** C3: on a normalized basic record, [FilterBasicData] keeps the record
    exactly when [titleType] is ["movie"], [isAdult] is falsy and
    [startYear] is present and at least 1970, and drops it otherwise without
    an error; e.g. a 1985 movie passes, a ["tvSeries"] and a 1960 movie do
    not. *)
Theorem filter_basic_spec (int_of_str : str -> option Z)
  (float_of_str : str -> option Q) (r0 r : record) :
  clean int_of_str float_of_str basic_cfg r0 = Ok r ->
  dict_lookup r0 (Col (lit "titleType")) <> None ->
  (exists keep : bool, filter_basic r = Ok (if keep then [r] else []) /\
     (keep = true <->
        dict_lookup r (Col (lit "titleType")) = Some (VStr (lit "movie")) /\
        (exists a, dict_lookup r (Col (lit "isAdult")) = Some a /\ truthy a = false) /\
        (exists z, dict_lookup r (Col (lit "startYear")) = Some (VInt z) /\
                   (1970 <= z)%Z))) /\
  filter_basic (ex_basic "movie" false (VInt 1985)) =
    Ok [ex_basic "movie" false (VInt 1985)] /\
  (forall r', dict_lookup r' (Col (lit "titleType")) = Some (VStr (lit "tvSeries")) ->
     filter_basic r' = Ok []) /\
  filter_basic (ex_basic "movie" false (VInt 1960)) = Ok [].
Proof.
  intros Hc Ht0; split; [| split; [vm_compute; reflexivity | split]].
  - destruct (clean_basic_fields _ _ _ _ Hc Ht0) as [[t Ht] [[b Hb] Hy]].
    destruct Hy as [Hy | [z Hy]].
    + exists false; split.
      * unfold filter_basic, dict_get; rewrite Ht, Hb, Hy; cbn [bind truthy].
        destruct (eq_str t (lit "movie")), b; reflexivity.
      * split; [discriminate|]. intros [_ [_ [z [H _]]]]; congruence.
    + exists (eq_str t (lit "movie") && negb b && Z.leb 1970 z)%bool; split.
      * unfold filter_basic, dict_get; rewrite Ht, Hb, Hy; cbn [bind truthy].
        destruct (eq_str t (lit "movie")), b; cbn [andb negb]; try reflexivity.
        destruct (Z.eqb z 0) eqn:Ez; cbn [negb].
        -- apply Z.eqb_eq in Ez; subst z; reflexivity.
        -- cbn [py_ge bind]; rewrite Qle_bool_Z; reflexivity.
      * rewrite !Bool.andb_true_iff, Bool.negb_true_iff, eq_str_movie, Z.leb_le.
        rewrite Ht, Hb, Hy; split.
        -- intros [[-> ->] Hz]; split; [reflexivity|]; split; eauto.
        -- intros [H [[a [Ha Hfa]] [z' [Hz Hle]]]].
           inversion H; inversion Ha; inversion Hz; subst; simpl in Hfa.
           repeat split; assumption.
  - intros r' H; unfold filter_basic, dict_get; rewrite H; reflexivity.
  - vm_compute; reflexivity.
Qed.

(** ** Lemmas on the join *)

Lemma value_eqb_spec (v w : value) : value_eqb v w = true <-> v = w.
Proof. unfold value_eqb; destruct (value_eq_dec v w); split; congruence. Qed.

Lemma key_by_tconst_values (rs : list record) (kvs : list (value * record)) :
  key_by_tconst rs = Ok kvs ->
  forall k, values_for k kvs = filter (has_tconst k) rs.
Proof.
  revert kvs; induction rs as [|r rs IH]; intros kvs H k; simpl in H.
  - inversion H; reflexivity.
  - unfold tconst, dict_get in H.
    destruct (dict_lookup r (Col (lit "tconst"))) as [k0|] eqn:E; [|discriminate].
    cbn [bind] in H.
    destruct (key_by_tconst rs) as [kvs'|]; [|discriminate]; cbn [bind] in H.
    inversion H; subst; clear H.
    unfold values_for in *; simpl; unfold has_tconst at 1; rewrite E.
    destruct (value_eqb k0 k); simpl; now rewrite (IH kvs' eq_refl k).
Qed.

Lemma values_for_notin (k : value) (kvs : list (value * record)) :
  ~ In k (map fst kvs) -> values_for k kvs = [].
Proof.
  induction kvs as [|[k0 r] kvs IH]; simpl; intros Hn; [reflexivity|].
  unfold values_for in *; simpl.
  destruct (value_eqb k0 k) eqn:E.
  - apply value_eqb_spec in E; subst; exfalso; apply Hn; now left.
  - apply IH; intros H; apply Hn; now right.
Qed.

Lemma has_tconst_lookup (k : value) (r : record) :
  has_tconst k r = true -> dict_lookup r (Col (lit "tconst")) = Some k.
Proof.
  unfold has_tconst; destruct (dict_lookup r (Col (lit "tconst"))); [|discriminate].
  intros H; apply value_eqb_spec in H; now subst.
Qed.

Lemma has_tconst_other (k k' : value) (r : record) :
  has_tconst k' r = true -> has_tconst k r = value_eqb k' k.
Proof.
  intros H; apply has_tconst_lookup in H; unfold has_tconst; now rewrite H.
Qed.

Lemma filter_pair_map (f : record -> bool) (a : record) (rs : list record) :
  filter (fun p => f (fst p)) (map (pair a) rs) =
  if f a then map (pair a) rs else [].
Proof.
  induction rs as [|b rs IH]; simpl; [destruct (f a); reflexivity|].
  rewrite IH; destruct (f a); reflexivity.
Qed.

Lemma filter_prod_const (f : record -> bool) (b : bool) (ms rs : list record) :
  (forall a, In a ms -> f a = b) ->
  filter (fun p => f (fst p)) (list_prod ms rs) = if b then list_prod ms rs else [].
Proof.
  induction ms as [|a ms IH]; simpl; intros H; [destruct b; reflexivity|].
  rewrite filter_app, filter_pair_map, H by (now left).
  rewrite IH by (intros a' Ha'; apply H; now right).
  destruct b; reflexivity.
Qed.

Lemma filter_flat_map {A B : Type} (P : B -> bool) (F : A -> list B) (l : list A) :
  filter P (flat_map F l) = flat_map (fun x => filter P (F x)) l.
Proof.
  induction l as [|x l IH]; simpl; [reflexivity|]. now rewrite filter_app, IH.
Qed.

Lemma flat_map_all_nil {A B : Type} (F : A -> list B) (l : list A) :
  (forall x, In x l -> F x = []) -> flat_map F l = [].
Proof.
  induction l as [|x l IH]; simpl; intros H; [reflexivity|].
  rewrite H by (now left); apply IH; intros y Hy; apply H; now right.
Qed.

Lemma flat_map_key (g : list cogroup) (F : cogroup -> list (record * record))
  (k : value) :
  NoDup (map fst g) ->
  (forall x, In x g -> F x = if value_eqb (fst x) k then join_ratings x else []) ->
  flat_map F g =
  match find (fun x => value_eqb (fst x) k) g with
  | Some x => join_ratings x
  | None => []
  end.
Proof.
  induction g as [|x g IH]; simpl; intros Hnd HF; [reflexivity|].
  inversion Hnd as [|? ? Hn Hnd']; subst.
  rewrite HF by (now left).
  destruct (value_eqb (fst x) k) eqn:E.
  - rewrite flat_map_all_nil, app_nil_r; [reflexivity|].
    intros y Hy; rewrite HF by (now right).
    destruct (value_eqb (fst y) k) eqn:Ey; [|reflexivity].
    apply value_eqb_spec in E; apply value_eqb_spec in Ey.
    exfalso; apply Hn; rewrite E, <- Ey; now apply in_map.
  - apply IH; [assumption|]. intros y Hy; apply HF; now right.
Qed.

Lemma Permutation_list_prod (ms ms' rs rs' : list record) :
  Permutation ms ms' -> Permutation rs rs' ->
  Permutation (list_prod ms rs) (list_prod ms' rs').
Proof.
  intros Hm Hr. transitivity (list_prod ms rs').
  - clear Hm; induction ms as [|a ms IH]; simpl; [constructor|].
    apply Permutation_app; [now apply Permutation_map | exact IH].
  - induction Hm as [| a l l' _ IH | a b l | l l' l'' _ IH1 _ IH2]; simpl.
    + constructor.
    + now apply Permutation_app_head.
    + rewrite !app_assoc; apply Permutation_app_tail, Permutation_app_comm.
    + now transitivity (list_prod l' rs').
Qed.

Lemma list_prod_nil_r (ms : list record) : @list_prod record record ms [] = [].
Proof. induction ms; simpl; auto. Qed.

Lemma cogroup_by_key_ok (mk rk : list (value * record)) :
  is_cogroup mk rk (cogroup_by_key mk rk).
Proof.
  unfold is_cogroup, cogroup_by_key; split; [|split].
  - rewrite map_map; simpl; rewrite map_id; apply NoDup_nodup.
  - intros k; rewrite map_map; simpl; rewrite map_id, nodup_In, in_app_iff.
    reflexivity.
  - intros k ms rs H; apply in_map_iff in H as [k' [H _]].
    inversion H; subst; split; apply Permutation_refl.
Qed.

(** C1: grouping both sides by [tconst] and taking [itertools.product] per
    group yields, for each key, exactly the pairs of a basic record and a
    rating record with that key (up to order); none for a key missing on
    either side; and each pair joins records with the same key. *)
Theorem join_inner_product (basics ratings : list record)
  (mk rk : list (value * record)) (g : list cogroup) :
  key_by_tconst basics = Ok mk -> key_by_tconst ratings = Ok rk ->
  is_cogroup mk rk g ->
  (forall k,
     Permutation (filter (fun p => has_tconst k (fst p)) (joined_pairs g))
       (list_prod (filter (has_tconst k) basics) (filter (has_tconst k) ratings))) /\
  (forall k,
     filter (has_tconst k) basics = [] \/ filter (has_tconst k) ratings = [] ->
     filter (fun p => has_tconst k (fst p)) (joined_pairs g) = []) /\
  (forall a b, In (a, b) (joined_pairs g) ->
     exists k, dict_lookup a (Col (lit "tconst")) = Some k /\
               dict_lookup b (Col (lit "tconst")) = Some k).
Proof.
  intros Hmk Hrk [Hnd [Hkeys Hgrp]].
  assert (Hperm : forall k,
     Permutation (filter (fun p => has_tconst k (fst p)) (joined_pairs g))
       (list_prod (filter (has_tconst k) basics) (filter (has_tconst k) ratings))).
  { intros k; unfold joined_pairs; rewrite filter_flat_map.
    rewrite (flat_map_key g _ k Hnd).
    - destruct (find (fun x => value_eqb (fst x) k) g) as [[k' [ms rs]]|] eqn:Ef.
      + apply find_some in Ef as [Hin Hk]; simpl in Hk.
        apply value_eqb_spec in Hk; subst k'.
        destruct (Hgrp k ms rs Hin) as [Pm Pr].
        rewrite <- (key_by_tconst_values _ _ Hmk), <- (key_by_tconst_values _ _ Hrk).
        now apply Permutation_list_prod.
      + assert (Hn : ~ In k (map fst g)).
        { intros H; apply in_map_iff in H as [x [Hx Hin]].
          apply (find_none _ _ Ef) in Hin; subst k.
          assert (value_eqb (fst x) (fst x) = true) by now apply value_eqb_spec.
          congruence. }
        rewrite Hkeys in Hn.
        rewrite <- (key_by_tconst_values _ _ Hmk), values_for_notin by tauto.
        constructor.
    - intros [k' [ms rs]] Hin; simpl.
      destruct (Hgrp k' ms rs Hin) as [Pm _].
      unfold join_ratings; simpl; apply filter_prod_const.
      intros a Ha; apply (Permutation_in _ Pm) in Ha.
      rewrite (key_by_tconst_values _ _ Hmk) in Ha.
      apply filter_In in Ha as [_ Ha]; now apply has_tconst_other. }
  split; [exact Hperm | split].
  - intros k Hz; apply Permutation_nil; symmetry.
    specialize (Hperm k).
    destruct Hz as [Hz|Hz]; rewrite Hz in Hperm; [exact Hperm|].
    rewrite list_prod_nil_r in Hperm; exact Hperm.
  - intros a b H; unfold joined_pairs in H.
    apply in_flat_map in H as [[k' [ms rs]] [Hin Hab]].
    unfold join_ratings in Hab; simpl in Hab; apply in_prod_iff in Hab as [Ha Hb].
    destruct (Hgrp k' ms rs Hin) as [Pm Pr].
    apply (Permutation_in _ Pm) in Ha; apply (Permutation_in _ Pr) in Hb.
    rewrite (key_by_tconst_values _ _ Hmk) in Ha.
    rewrite (key_by_tconst_values _ _ Hrk) in Hb.
    apply filter_In in Ha as [_ Ha]; apply filter_In in Hb as [_ Hb].
    exists k'; split; now apply has_tconst_lookup.
Qed.

(** ** Lemmas on [ParseCsv] *)

Lemma crlf_line_break (c : ascii) : is_line_break c = false -> is_crlf c = false.
Proof.
  unfold is_line_break, is_crlf; simpl.
  destruct (Ascii.eqb c lf), (Ascii.eqb c cr); simpl; congruence.
Qed.

Lemma splitlines_aux_plain (s cur : str) :
  (forall c, In c s -> is_line_break c = false) ->
  splitlines_aux s cur = match cur ++ s with [] => [] | _ => [cur ++ s] end.
Proof.
  revert cur; induction s as [|c s IH]; intros cur H; simpl.
  - now rewrite app_nil_r.
  - assert (Hc : is_line_break c = false) by (apply H; now left).
    assert (Hcr : Ascii.eqb c cr = false).
    { apply crlf_line_break in Hc; unfold is_crlf in Hc.
      now apply Bool.orb_false_iff in Hc as [_ ->]. }
    rewrite Hcr, Hc, IH by (intros c' Hc'; apply H; now right).
    rewrite <- app_assoc; simpl; destruct cur; reflexivity.
Qed.

Lemma process_chars_app (st : reader) (s1 s2 : str) :
  process_chars st (s1 ++ s2) = (st' <- process_chars st s1 ;; process_chars st' s2).
Proof.
  revert st; induction s1 as [|c s1 IH]; intros st; simpl; [reflexivity|].
  destruct (process_char st (Chr c)); simpl; [apply IH | reflexivity].
Qed.

Lemma process_in_field (fs : list str) (fl f : str) :
  (forall c, In c f -> is_crlf c = false /\ c <> tab) ->
  (N.of_nat (List.length (fl ++ f)) <= field_limit)%N ->
  process_chars (mkReader IN_FIELD fs fl) f = Ok (mkReader IN_FIELD fs (fl ++ f)).
Proof.
  revert fl; induction f as [|c f IH]; intros fl Hf Hlen; simpl.
  - now rewrite app_nil_r.
  - destruct (Hf c (or_introl eq_refl)) as [Hc Ht].
    unfold process_char; simpl; rewrite Hc.
    destruct (Ascii.eqb c tab) eqn:E; [apply Ascii.eqb_eq in E; contradiction|].
    unfold add_char; simpl.
    rewrite length_app in Hlen; simpl in Hlen.
    destruct (N.leb field_limit (N.of_nat (List.length fl))) eqn:El.
    + apply N.leb_le in El; lia.
    + simpl; rewrite IH.
      * now rewrite <- app_assoc.
      * intros c' Hc'; apply Hf; now right.
      * rewrite !length_app in *; simpl in *; lia.
Qed.

(** A non-empty field read from the start of a field. *)
Lemma process_field_start (st : reader) (f : str) :
  (rstate st = START_RECORD \/ rstate st = START_FIELD) -> rfield st = [] ->
  f <> [] -> good_field f ->
  process_chars st f = Ok (mkReader IN_FIELD (rfields st) f).
Proof.
  intros Hs Hfl Hne [Hch [Hq Hlen]].
  destruct f as [|c f]; [contradiction|].
  destruct (Hch c (or_introl eq_refl)) as [Hc Ht]; apply crlf_line_break in Hc.
  assert (Hstart : process_char st (Chr c) =
                   Ok (mkReader IN_FIELD (rfields st) [c])).
  { assert (Hsf : start_field st c = Ok (mkReader IN_FIELD (rfields st) [c])).
    { unfold start_field; rewrite Hc.
      destruct (Ascii.eqb c quotechar) eqn:Eq;
        [apply Ascii.eqb_eq in Eq; subst; simpl in Hq; congruence|].
      destruct (Ascii.eqb c tab) eqn:Et; [apply Ascii.eqb_eq in Et; contradiction|].
      unfold add_char; rewrite Hfl; reflexivity. }
    unfold process_char; destruct Hs as [Hs|Hs]; rewrite Hs; [rewrite Hc|]; exact Hsf. }
  simpl; rewrite Hstart; cbn [bind].
  apply (process_in_field _ [c] f).
  - intros c' Hc'; destruct (Hch c' (or_intror Hc')) as [H1 H2].
    split; [now apply crlf_line_break | exact H2].
  - exact Hlen.
Qed.

(** A line made of good fields, read from the start of a record, ends the
    record with these fields. *)
Lemma process_fields (fs : list str) (st : reader) :
  fs <> [] -> Forall good_field fs ->
  (rstate st = START_FIELD \/ (rstate st = START_RECORD /\ join_tab fs <> [])) ->
  rfield st = [] ->
  process_line st (join_tab fs) = Ok (mkReader START_RECORD (rfields st ++ fs) []).
Proof.
  revert st; induction fs as [|f fs IH]; intros st Hne Hgood Hs Hfl; [contradiction|].
  inversion Hgood as [|? ? Hf Hgood']; subst.
  destruct st as [p fields fl]; simpl in Hs, Hfl; subst fl.
  destruct fs as [|f2 fs].
  - simpl in *. unfold process_line.
    destruct f as [|c f'].
    + destruct Hs as [->|[_ H]]; [reflexivity | contradiction].
    + rewrite (process_field_start _ (c :: f')); simpl; try reflexivity;
        try assumption; [|discriminate].
      destruct Hs as [->|[-> _]]; auto.
  - change (join_tab (f :: f2 :: fs)) with (f ++ tab :: join_tab (f2 :: fs)).
    unfold process_line; rewrite process_chars_app.
    assert (Htab : exists fields',
      (st' <- process_chars (mkReader p fields []) f ;; process_char st' (Chr tab))
        = Ok (mkReader START_FIELD fields' []) /\ fields' = fields ++ [f]).
    { destruct f as [|c f'].
      - simpl. exists (fields ++ [[]]); split; [|reflexivity].
        destruct Hs as [->|[-> _]]; reflexivity.
      - rewrite (process_field_start _ (c :: f')); simpl; try reflexivity;
          try assumption; [| destruct Hs as [->|[-> _]]; auto | discriminate].
        exists (fields ++ [c :: f']); split; reflexivity. }
    destruct Htab as [fields' [Htab ->]].
    destruct (process_chars (mkReader p fields []) f) as [st1|] eqn:E1;
      [|discriminate]; cbn [bind] in Htab |- *.
    simpl; rewrite Htab; cbn [bind].
    pose proof (IH (mkReader START_FIELD (fields ++ [f]) [])) as IH'.
    unfold process_line in IH'; simpl in IH'.
    rewrite IH'; [ now rewrite <- app_assoc | discriminate | assumption
                 | now left | reflexivity ].
Qed.

Lemma split_tab_aux_ne (s cur : str) : split_tab_aux s cur <> [].
Proof.
  revert cur; induction s as [|c s IH]; intros cur; simpl; [discriminate|].
  destruct (Ascii.eqb c tab); [discriminate | apply IH].
Qed.

Lemma join_split_tab_aux (s cur : str) : join_tab (split_tab_aux s cur) = cur ++ s.
Proof.
  revert cur; induction s as [|c s IH]; intros cur; simpl; [now rewrite app_nil_r|].
  destruct (Ascii.eqb c tab) eqn:E.
  - apply Ascii.eqb_eq in E; subst.
    pose proof (split_tab_aux_ne s []) as Hne.
    destruct (split_tab_aux s []) as [|f fs] eqn:Es; [contradiction|].
    change (join_tab (cur :: f :: fs)) with (cur ++ tab :: join_tab (f :: fs)).
    rewrite <- Es, IH; reflexivity.
  - rewrite IH, <- app_assoc; reflexivity.
Qed.

Lemma join_split_tab (s : str) : join_tab (split_tab s) = s.
Proof. apply join_split_tab_aux. Qed.

Lemma split_tab_aux_chars (s cur f : str) (c : ascii) :
  (forall c', In c' cur -> c' <> tab) ->
  In f (split_tab_aux s cur) -> In c f -> c <> tab /\ (In c cur \/ In c s).
Proof.
  revert cur; induction s as [|c0 s IH]; intros cur Hcur Hf Hc; simpl in Hf.
  - destruct Hf as [->|[]]; auto.
  - destruct (Ascii.eqb c0 tab) eqn:E.
    + destruct Hf as [->|Hf]; [auto|].
      destruct (IH [] (fun _ H => match H with end) Hf Hc) as [Ht [[]|Hs]].
      split; [exact Ht | right; now right].
    + assert (Hcur' : forall c', In c' (cur ++ [c0]) -> c' <> tab).
      { intros c' Hc'; apply in_app_or in Hc' as [Hc'|[<-|[]]]; [now apply Hcur|].
        intros ->; rewrite Ascii.eqb_refl in E; discriminate. }
      destruct (IH _ Hcur' Hf Hc) as [Ht [Hin|Hin]]; split; auto.
      apply in_app_or in Hin as [Hin|[<-|[]]]; [now left | right; now left].
      right; now right.
Qed.

(** A single plain line makes one row: its tab-separated fields. *)
Lemma parse_csv_plain (cols : list str) (s : str) :
  s <> [] ->
  (forall c, In c s -> is_line_break c = false) ->
  (forall f, In f (split_tab s) ->
     hd_error f <> Some quotechar /\ (N.of_nat (List.length f) <= field_limit)%N) ->
  parse_csv cols s = Ok [dict_of_row cols (split_tab s)].
Proof.
  intros Hne Hlb Hfs.
  unfold parse_csv, splitlines; rewrite splitlines_aux_plain by exact Hlb.
  destruct s as [|c0 s']; [contradiction|]; set (s := c0 :: s') in *.
  cbn [app].
  assert (Hgood : Forall good_field (split_tab s)).
  { apply Forall_forall; intros f Hf; destruct (Hfs f Hf) as [Hq Hl].
    split; [|split; assumption].
    intros c Hc; destruct (split_tab_aux_chars s [] f c (fun _ H => match H with end) Hf Hc)
      as [Ht [[]|Hs]].
    split; [now apply Hlb | exact Ht]. }
  pose proof (process_fields (split_tab s) reader_reset (split_tab_aux_ne s [])
                Hgood) as Hp.
  rewrite join_split_tab in Hp; simpl in Hp.
  unfold s at 1; cbn [read_rows]; fold s.
  rewrite Hp; [| right; split; [reflexivity | exact Hne] | reflexivity].
  cbn [bind]; simpl.
  pose proof (split_tab_aux_ne s []) as Hne'; unfold split_tab.
  destruct (split_tab_aux s []); [contradiction | reflexivity].
Qed.

Lemma map_fst_combine {A B : Type} (l : list A) (l' : list B) :
  map fst (combine l l') = firstn (List.length l') l.
Proof.
  revert l'; induction l as [|a l IH]; intros [|b l']; simpl.
  - reflexivity.
  - now destruct (List.length l').
  - reflexivity.
  - now rewrite IH.
Qed.

Lemma NoDup_map_Col (l : list str) : NoDup l -> NoDup (map Col l).
Proof.
  induction 1 as [|c l Hn Hnd IH]; simpl; constructor; [|exact IH].
  intros Hin; apply in_map_iff in Hin as [c' [Heq Hin]]; injection Heq as ->.
  contradiction.
Qed.

Lemma NoDup_firstn_skipn {A : Type} (n : nat) (l : list A) (x : A) :
  NoDup l -> In x (firstn n l) -> In x (skipn n l) -> False.
Proof.
  intros Hnd; apply NoDup_app_disjoint; now rewrite firstn_skipn.
Qed.

Lemma fold_set_map {A : Type} (g : A -> pykey * value) (l : list A) (d : record) :
  fold_left (fun acc a => dict_set acc (fst (g a)) (snd (g a))) l d =
  fold_left (fun acc kv => dict_set acc (fst kv) (snd kv)) (map g l) d.
Proof. revert d; induction l as [|a l IH]; intros d; simpl; auto. Qed.

Lemma fold_set_none_lookup (l : list str) (d : record) (k : pykey) :
  dict_lookup (fold_left (fun acc c => dict_set acc (Col c) VNone) l d) k =
  if in_cols k l then Some VNone else dict_lookup d k.
Proof.
  revert d; induction l as [|c l IH]; intros d; simpl; [destruct k; reflexivity|].
  rewrite IH, dict_lookup_set, in_cols_cons.
  destruct (pykey_eqb k (Col c)), (in_cols k l); reflexivity.
Qed.

Section DictOfRow.
Variables (cols fs : list str).
Hypothesis Hnd : NoDup cols.

Let pairs : record := map (fun kv => (Col (fst kv), VStr (snd kv))) (combine cols fs).
Let d : record :=
  fold_left (fun acc kv => dict_set acc (Col (fst kv)) (VStr (snd kv))) (combine cols fs) [].

Lemma pairs_keys : keys pairs = map Col (firstn (List.length fs) cols).
Proof.
  unfold pairs, keys; rewrite map_map, <- map_fst_combine, map_map; reflexivity.
Qed.

Lemma pairs_NoDup : NoDup (keys pairs).
Proof.
  rewrite pairs_keys; apply NoDup_map_Col.
  apply (NoDup_app_remove_r _ (skipn (List.length fs) cols)); now rewrite firstn_skipn.
Qed.

Lemma d_lookup (k : pykey) : dict_lookup d k = dict_lookup pairs k.
Proof.
  unfold d; rewrite (fold_set_map (fun kv => (Col (fst kv), VStr (snd kv)))).
  rewrite dict_lookup_fold_set; fold pairs.
  rewrite dict_lookup_rev by exact pairs_NoDup.
  destruct (dict_lookup pairs k); reflexivity.
Qed.

Lemma d_lookup_combine (c f : str) :
  In (c, f) (combine cols fs) -> dict_lookup d (Col c) = Some (VStr f).
Proof.
  intros Hin; rewrite d_lookup; apply dict_lookup_NoDup_In; [exact pairs_NoDup|].
  unfold pairs; apply (in_map (fun kv => (Col (fst kv), VStr (snd kv))) _ _ Hin).
Qed.

Lemma d_lookup_NoneKey : dict_lookup d NoneKey = None.
Proof.
  rewrite d_lookup; apply dict_lookup_none; rewrite pairs_keys.
  intros Hin; apply in_map_iff in Hin as [c [Hc _]]; discriminate.
Qed.

Lemma combine_in_firstn (c f : str) :
  In (c, f) (combine cols fs) -> In c (firstn (List.length fs) cols).
Proof.
  intros Hin; rewrite <- map_fst_combine; apply (in_map fst _ _ Hin).
Qed.

Lemma dict_of_row_combine (c f : str) :
  In (c, f) (combine cols fs) -> dict_lookup (dict_of_row cols fs) (Col c) = Some (VStr f).
Proof.
  intros Hin; unfold dict_of_row; fold d.
  destruct (Nat.ltb (List.length cols) (List.length fs)).
  - rewrite dict_lookup_set, pykey_eqb_neq by discriminate.
    now apply d_lookup_combine.
  - destruct (Nat.ltb (List.length fs) (List.length cols)); [|now apply d_lookup_combine].
    rewrite fold_set_none_lookup.
    destruct (in_cols (Col c) (skipn (List.length fs) cols)) eqn:E;
      [|now apply d_lookup_combine].
    apply in_cols_Col in E; exfalso.
    exact (NoDup_firstn_skipn _ _ _ Hnd (combine_in_firstn c f Hin) E).
Qed.

Lemma dict_of_row_missing (c : str) :
  In c (skipn (List.length fs) cols) -> dict_lookup (dict_of_row cols fs) (Col c) = Some VNone.
Proof.
  intros Hin; unfold dict_of_row.
  destruct (Nat.ltb (List.length cols) (List.length fs)) eqn:E1.
  - apply Nat.ltb_lt in E1; rewrite skipn_all2 in Hin by lia; destruct Hin.
  - destruct (Nat.ltb (List.length fs) (List.length cols)) eqn:E2.
    + rewrite fold_set_none_lookup; apply in_cols_Col in Hin; now rewrite Hin.
    + apply Nat.ltb_ge in E1, E2; rewrite skipn_all2 in Hin by lia; destruct Hin.
Qed.

Lemma dict_of_row_rest :
  (List.length cols < List.length fs)%nat ->
  dict_lookup (dict_of_row cols fs) NoneKey = Some (VList (skipn (List.length cols) fs)).
Proof.
  intros Hlt; unfold dict_of_row.
  apply Nat.ltb_lt in Hlt; rewrite Hlt, dict_lookup_set, pykey_eqb_refl; reflexivity.
Qed.

End DictOfRow.

Lemma field_strings_lookup (cols fs : list str) (r : record) :
  List.length cols = List.length fs ->
  (forall c f, In (c, f) (combine cols fs) -> dict_lookup r (Col c) = Some (VStr f)) ->
  field_strings cols r = Some fs.
Proof.
  revert fs; induction cols as [|c cs IH]; intros [|f fs] Hlen H; simpl in *;
    try discriminate; [reflexivity|].
  rewrite (H c f (or_introl eq_refl)), (IH fs); auto.
Qed.

(** ** Claims on [ParseCsv] *)

(** C8 (amended). [ParseCsv] raises no error on a field-count mismatch: a
    single non-empty line with no line break, no field starting with a double quote
    and no field over the size limit yields exactly one record. Its schema
    columns hold the line's fields in order. Columns past the last field
    hold [None]. Fields past the last column are collected as a list under
    the key [None]. *)
Theorem parse_csv_row_shape (cols : list str) (s : str) :
  NoDup cols -> s <> [] ->
  (forall c, In c s -> is_line_break c = false) ->
  (forall f, In f (split_tab s) ->
     hd_error f <> Some quotechar /\ (N.of_nat (List.length f) <= field_limit)%N) ->
  exists r, parse_csv cols s = Ok [r] /\
    (forall c f, In (c, f) (combine cols (split_tab s)) ->
       dict_lookup r (Col c) = Some (VStr f)) /\
    (forall c, In c (skipn (List.length (split_tab s)) cols) ->
       dict_lookup r (Col c) = Some VNone) /\
    ((List.length cols < List.length (split_tab s))%nat ->
       dict_lookup r NoneKey = Some (VList (skipn (List.length cols) (split_tab s)))).
Proof.
  intros Hnd Hne Hlb Hfs.
  exists (dict_of_row cols (split_tab s)).
  split; [now apply parse_csv_plain|].
  split; [intros c f; now apply dict_of_row_combine|].
  split; [intros c; now apply dict_of_row_missing|].
  now apply dict_of_row_rest.
Qed.

(** C9 (amended). Round trip: a line with as many tab-separated fields as
    the schema has columns, with no line break, no field starting with a
    double quote and no field over the size limit, parses into one record
    whose values re-joined with tabs in schema order give the line back. *)
Theorem parse_unparse_roundtrip (cols : list str) (s : str) :
  NoDup cols -> s <> [] ->
  (forall c, In c s -> is_line_break c = false) ->
  (forall f, In f (split_tab s) ->
     hd_error f <> Some quotechar /\ (N.of_nat (List.length f) <= field_limit)%N) ->
  List.length (split_tab s) = List.length cols ->
  exists r, parse_csv cols s = Ok [r] /\ unparse cols r = Some s.
Proof.
  intros Hnd Hne Hlb Hfs Hlen.
  exists (dict_of_row cols (split_tab s)); split; [now apply parse_csv_plain|].
  unfold unparse.
  rewrite (field_strings_lookup cols (split_tab s)).
  - now rewrite join_split_tab.
  - now symmetry.
  - intros c f; now apply dict_of_row_combine.
Qed.

(** * Counterexamples *)

(** C7. Cleaning the cleaned Blade Runner record again changes it:
    [isAdult] was [False] after the first pass and is [True] after the
    second, because [False == '0'] does not hold. *)
Lemma clean_twice_counterexample :
  exists r1, clean dec_int_of_str dec_float_of_str basic_cfg ex_basic_raw = Ok r1 /\
    clean dec_int_of_str dec_float_of_str basic_cfg r1 <> Ok r1.
Proof.
  eexists; split; [reflexivity|].
  vm_compute; intros H; discriminate H.
Qed.

(** C8. A ratings line with two fields instead of three raises nothing:
    [ParseCsv] yields a record whose [numVotes] is [None]. *)
Lemma parse_short_line_counterexample :
  List.length (split_tab ex_short_line) <> List.length columns_ratings /\
  parse_csv columns_ratings ex_short_line =
    Ok [mk_record [("tconst", vs "tt1"); ("averageRating", vs "7.2");
                   ("numVotes", VNone)]%string].
Proof. split; [vm_compute; discriminate | vm_compute; reflexivity]. Qed.

(** C9. A ratings line with three fields whose first is quoted: the reader
    strips the quotes, and no record it yields re-joins to the line. *)
Lemma parse_quoted_line_counterexample :
  List.length (split_tab ex_quoted_line) = List.length columns_ratings /\
  forall rs, parse_csv columns_ratings ex_quoted_line = Ok rs ->
    forall r, In r rs -> unparse columns_ratings r <> Some ex_quoted_line.
Proof.
  split; [vm_compute; reflexivity|].
  intros rs H r Hin; vm_compute in H; injection H as <-.
  destruct Hin as [<-|[]]; vm_compute; intros H; discriminate H.
Qed.

(** * Witnesses *)

Ltac solve_nodup := repeat constructor; simpl; intuition discriminate.

Ltac solve_no_break :=
  let c := fresh "c" in let Hc := fresh "Hc" in
  intros c Hc; vm_compute in Hc;
  repeat (destruct Hc as [<-|Hc]; [reflexivity|]); destruct Hc.

Ltac solve_plain_fields :=
  let f := fresh "f" in let Hf := fresh "Hf" in
  intros f Hf; vm_compute in Hf;
  repeat (destruct Hf as [<-|Hf]; [split; [discriminate | vm_compute; discriminate]|]);
  destruct Hf.

Lemma parse_csv_row_shape_witness :
  exists r, parse_csv columns_ratings ex_short_line = Ok [r] /\
    (forall c f, In (c, f) (combine columns_ratings (split_tab ex_short_line)) ->
       dict_lookup r (Col c) = Some (VStr f)) /\
    (forall c, In c (skipn (List.length (split_tab ex_short_line)) columns_ratings) ->
       dict_lookup r (Col c) = Some VNone) /\
    ((List.length columns_ratings < List.length (split_tab ex_short_line))%nat ->
       dict_lookup r NoneKey =
         Some (VList (skipn (List.length columns_ratings) (split_tab ex_short_line)))).
Proof.
  apply parse_csv_row_shape;
    [solve_nodup | vm_compute; discriminate | solve_no_break | solve_plain_fields].
Defined.

Lemma parse_unparse_roundtrip_witness :
  exists r, parse_csv columns_ratings (lit "tt0083658" ++ tab :: lit "8.1" ++ tab :: lit "1000")
    = Ok [r] /\
    unparse columns_ratings r = Some (lit "tt0083658" ++ tab :: lit "8.1" ++ tab :: lit "1000").
Proof.
  apply parse_unparse_roundtrip;
    [solve_nodup | discriminate | solve_no_break | solve_plain_fields
    | vm_compute; reflexivity].
Defined.

Ltac solve_raw_for :=
  let c := fresh "c" in let Hc := fresh "Hc" in
  intros c Hc; vm_compute in Hc;
  repeat (destruct Hc as [<-|Hc];
          [eexists; split; [reflexivity | right; eexists; reflexivity]|]);
  destruct Hc.

Lemma clean_bool_field_witness :
  exists r, clean dec_int_of_str dec_float_of_str basic_cfg ex_basic_raw = Ok r /\
    (vs "0" = VStr (lit "0") ->
       dict_lookup r (Col (lit "isAdult")) = Some (VBool false)) /\
    (vs "0" <> VNone -> vs "0" <> VStr (lit "0") ->
       dict_lookup r (Col (lit "isAdult")) = Some (VBool true)).
Proof.
  eexists; split; [reflexivity|].
  apply (clean_bool_field dec_int_of_str dec_float_of_str basic_cfg ex_basic_raw);
    [simpl; now left | solve_nodup | vm_compute; intuition discriminate
    | vm_compute; intuition discriminate | reflexivity | reflexivity].
Defined.

Lemma clean_bool_sentinel_witness :
  exists r, clean dec_int_of_str dec_float_of_str basic_cfg ex_basic_raw_nulladult = Ok r /\
    dict_lookup r (Col (lit "isAdult")) = Some (VBool true).
Proof.
  eexists; split; [reflexivity|].
  apply (clean_bool_sentinel dec_int_of_str dec_float_of_str basic_cfg
           ex_basic_raw_nulladult);
    [simpl; now left | solve_nodup | vm_compute; intuition discriminate
    | vm_compute; intuition discriminate | reflexivity | reflexivity].
Defined.

Lemma clean_numeric_fields_witness :
  exists r, clean dec_int_of_str dec_float_of_str rating_cfg ex_rating_raw = Ok r /\
    (forall c v, In c (int_cols rating_cfg) -> dict_lookup ex_rating_raw (Col c) = Some v ->
       exists w, dict_lookup r (Col c) = Some w /\ coerced_as dec_int_of_str VInt v w) /\
    (forall c v, In c (float_cols rating_cfg) -> dict_lookup ex_rating_raw (Col c) = Some v ->
       exists w, dict_lookup r (Col c) = Some w /\ coerced_as dec_float_of_str VFloat v w).
Proof.
  apply clean_numeric_fields; [solve_nodup | solve_nodup | solve_raw_for].
Defined.

Lemma clean_twice_witness :
  exists r1, clean dec_int_of_str dec_float_of_str basic_cfg ex_basic_raw = Ok r1 /\
    clean dec_int_of_str dec_float_of_str basic_cfg r1 =
      Ok (map_vals (renormalize basic_cfg) r1).
Proof.
  apply clean_twice; [solve_nodup | solve_nodup | solve_raw_for].
Defined.

Lemma mergedicts_union_witness :
  dict_lookup (mergedicts (ex_basic_raw, ex_rating_raw)) (Col (lit "tconst")) =
    match dict_lookup ex_rating_raw (Col (lit "tconst")) with
    | Some v => Some v | None => dict_lookup ex_basic_raw (Col (lit "tconst")) end /\
  (In (Col (lit "tconst")) (keys (mergedicts (ex_basic_raw, ex_rating_raw))) <->
     In (Col (lit "tconst")) (keys ex_basic_raw) \/
     In (Col (lit "tconst")) (keys ex_rating_raw)).
Proof. apply mergedicts_union; solve_nodup. Defined.

Lemma filter_rating_spec_witness :
  exists r, clean dec_int_of_str dec_float_of_str rating_cfg ex_rating_raw = Ok r /\
  (exists keep : bool, filter_rating r = Ok (if keep then [r] else []) /\
     (keep = true <-> exists q,
        dict_lookup r (Col (lit "averageRating")) = Some (VFloat q) /\ (5 <= q)%Q)) /\
  filter_rating (ex_rating (VFloat (72 # 10))) = Ok [ex_rating (VFloat (72 # 10))] /\
  filter_rating (ex_rating (VFloat (49 # 10))) = Ok [] /\
  filter_rating (ex_rating VNone) = Ok [].
Proof.
  eexists; split; [reflexivity|].
  apply (filter_rating_spec dec_int_of_str dec_float_of_str ex_rating_raw).
  reflexivity.
Defined.

Lemma filter_basic_spec_witness :
  exists r, clean dec_int_of_str dec_float_of_str basic_cfg ex_basic_raw = Ok r /\
  (exists keep : bool, filter_basic r = Ok (if keep then [r] else []) /\
     (keep = true <->
        dict_lookup r (Col (lit "titleType")) = Some (VStr (lit "movie")) /\
        (exists a, dict_lookup r (Col (lit "isAdult")) = Some a /\ truthy a = false) /\
        (exists z, dict_lookup r (Col (lit "startYear")) = Some (VInt z) /\
                   (1970 <= z)%Z))) /\
  filter_basic (ex_basic "movie" false (VInt 1985)) =
    Ok [ex_basic "movie" false (VInt 1985)] /\
  (forall r', dict_lookup r' (Col (lit "titleType")) = Some (VStr (lit "tvSeries")) ->
     filter_basic r' = Ok []) /\
  filter_basic (ex_basic "movie" false (VInt 1960)) = Ok [].
Proof.
  eexists; split; [reflexivity|].
  apply (filter_basic_spec dec_int_of_str dec_float_of_str ex_basic_raw);
    [reflexivity | vm_compute; discriminate].
Defined.

Lemma join_inner_product_witness :
  exists mk rk,
    key_by_tconst [ex_basic "movie" false (VInt 1985); ex_basic_raw] = Ok mk /\
    key_by_tconst [ex_rating (VFloat (72 # 10))] = Ok rk /\
    let basics := [ex_basic "movie" false (VInt 1985); ex_basic_raw] in
    let ratings := [ex_rating (VFloat (72 # 10))] in
    let g := cogroup_by_key mk rk in
    (forall k,
       Permutation (filter (fun p => has_tconst k (fst p)) (joined_pairs g))
         (list_prod (filter (has_tconst k) basics) (filter (has_tconst k) ratings))) /\
    (forall k,
       filter (has_tconst k) basics = [] \/ filter (has_tconst k) ratings = [] ->
       filter (fun p => has_tconst k (fst p)) (joined_pairs g) = []) /\
    (forall a b, In (a, b) (joined_pairs g) ->
       exists k, dict_lookup a (Col (lit "tconst")) = Some k /\
                 dict_lookup b (Col (lit "tconst")) = Some k).
Proof.
  do 2 eexists; split; [reflexivity|]; split; [reflexivity|].
  cbv zeta.
  eapply (join_inner_product [ex_basic "movie" false (VInt 1985); ex_basic_raw]
           [ex_rating (VFloat (72 # 10))]);
    [reflexivity | reflexivity | apply cogroup_by_key_ok].
Defined.

(** * Further properties *)

(** ** The reader on quoted fields and on several lines *)

Lemma process_quoted_body (fs : list str) (fl f : str) :
  (N.of_nat (List.length (fl ++ f)) <= field_limit)%N ->
  process_chars (mkReader IN_QUOTED_FIELD fs fl)
    (flat_map (fun c => if Ascii.eqb c quotechar then [quotechar; quotechar] else [c]) f)
  = Ok (mkReader IN_QUOTED_FIELD fs (fl ++ f)).
Proof.
  revert fl; induction f as [|c f IH]; intros fl Hlen; simpl.
  - now rewrite app_nil_r.
  - rewrite process_chars_app.
    rewrite length_app in Hlen; simpl in Hlen.
    assert (Hadd : N.leb field_limit (N.of_nat (List.length fl)) = false)
      by (apply N.leb_gt; lia).
    destruct (Ascii.eqb c quotechar) eqn:Eq.
    + apply Ascii.eqb_eq in Eq; subst c.
      cbn [process_chars process_char rstate rfield rfields bind set_state].
      rewrite Ascii.eqb_refl; cbn [bind].
      cbn [process_char rstate set_state rfield rfields]; rewrite Ascii.eqb_refl.
      unfold add_char, set_state; cbn [rfield rfields]; rewrite Hadd; cbn [bind].
      rewrite IH; [now rewrite <- app_assoc|].
      rewrite !length_app in *; simpl in *; lia.
    + cbn [process_chars process_char rstate rfield rfields bind set_state].
      rewrite Eq.
      unfold add_char; cbn [rfield rfields]; rewrite Hadd; cbn [bind].
      rewrite IH; [now rewrite <- app_assoc|].
      rewrite !length_app in *; simpl in *; lia.
Qed.

Lemma process_item (st : reader) (qf : bool * str) :
  (rstate st = START_RECORD \/ rstate st = START_FIELD) -> rfield st = [] ->
  item_ok qf ->
  exists st', process_chars st (encode_field qf) = Ok st' /\
    rfields st' = rfields st /\ rfield st' = snd qf /\
    (rstate st' = IN_FIELD \/ rstate st' = QUOTE_IN_QUOTED_FIELD \/
     (st' = st /\ encode_field qf = [])).
Proof.
  intros Hs Hfl [Hlb [Hlen Hplain]].
  destruct st as [p fields fl]; simpl in Hs, Hfl; subst fl.
  destruct qf as [[|] f]; unfold encode_field; cbn [fst snd] in *.
  - unfold quote_field.
    exists (mkReader QUOTE_IN_QUOTED_FIELD fields f).
    split; [|split; [reflexivity | split; [reflexivity | right; now left]]].
    assert (H1 : process_char (mkReader p fields []) (Chr quotechar) =
                 Ok (mkReader IN_QUOTED_FIELD fields [])).
    { destruct Hs as [H|H]; rewrite H; reflexivity. }
    cbn [process_chars]; rewrite H1; cbn [bind].
    rewrite process_chars_app, (process_quoted_body fields [] f) by exact Hlen.
    reflexivity.
  - destruct f as [|c f'].
    + exists (mkReader p fields []).
      split; [reflexivity|]; split; [reflexivity|]; split; [reflexivity|].
      right; right; split; reflexivity.
    + destruct (Hplain eq_refl) as [Ht Hq].
      exists (mkReader IN_FIELD fields (c :: f')).
      split; [|simpl; auto].
      apply (process_field_start (mkReader p fields [])); simpl; auto; [discriminate|].
      split; [|split; assumption].
      intros c' Hc'; split; [now apply Hlb|]; intros ->; contradiction.
Qed.

Lemma end_field_tab (st : reader) :
  rstate st = START_RECORD \/ rstate st = START_FIELD \/ rstate st = IN_FIELD \/
  rstate st = QUOTE_IN_QUOTED_FIELD ->
  process_char st (Chr tab) = Ok (save_field st START_FIELD).
Proof.
  destruct st as [p fs fl]; simpl.
  intros [H|[H|[H|H]]]; rewrite H; reflexivity.
Qed.

Lemma end_field_eol (st : reader) :
  rstate st = START_FIELD \/ rstate st = IN_FIELD \/ rstate st = QUOTE_IN_QUOTED_FIELD ->
  process_char st EOL = Ok (save_field st START_RECORD).
Proof.
  destruct st as [p fs fl]; simpl.
  intros [H|[H|H]]; rewrite H; reflexivity.
Qed.

Lemma process_items (items : list (bool * str)) (st : reader) :
  items <> [] -> Forall item_ok items ->
  (rstate st = START_FIELD \/
   (rstate st = START_RECORD /\ join_tab (map encode_field items) <> [])) ->
  rfield st = [] ->
  process_line st (join_tab (map encode_field items)) =
  Ok (mkReader START_RECORD (rfields st ++ map snd items) []).
Proof.
  revert st; induction items as [|qf items IH]; intros st Hne Hok Hs Hfl;
    [contradiction|].
  inversion Hok as [|? ? Hqf Hok']; subst.
  assert (Hs' : rstate st = START_RECORD \/ rstate st = START_FIELD)
    by (destruct Hs as [H|[H _]]; auto).
  destruct (process_item st qf Hs' Hfl Hqf) as [st' [Hp [Hfs [Hf Hst']]]].
  assert (Hsave : save_field st' START_FIELD =
                  mkReader START_FIELD (rfields st ++ [snd qf]) []).
  { unfold save_field; now rewrite Hfs, Hf. }
  destruct items as [|qf2 items].
  - cbn [map join_tab] in *; unfold process_line; rewrite Hp; cbn [bind].
    rewrite end_field_eol.
    + unfold save_field; now rewrite Hfs, Hf.
    + destruct Hst' as [H|[H|[-> He]]]; auto.
      destruct Hs as [H|[_ H]]; [auto | contradiction].
  - change (join_tab (map encode_field (qf :: qf2 :: items)))
      with (encode_field qf ++ tab :: join_tab (map encode_field (qf2 :: items))).
    unfold process_line; rewrite process_chars_app, Hp; cbn [bind].
    cbn [process_chars]; rewrite end_field_tab; cbn [bind].
    + rewrite Hsave.
      pose proof (IH (mkReader START_FIELD (rfields st ++ [snd qf]) [])) as IH'.
      unfold process_line in IH'; cbn [rfields] in IH'.
      rewrite IH'; [ now rewrite <- app_assoc | discriminate | assumption
                   | now left | reflexivity ].
    + destruct Hst' as [H|[H|[-> _]]]; auto.
      destruct Hs' as [H|H]; auto.
Qed.

Lemma in_join_tab (fs : list str) (c : ascii) :
  In c (join_tab fs) -> c = tab \/ exists f, In f fs /\ In c f.
Proof.
  induction fs as [|f fs IH]; simpl; [tauto|].
  destruct fs as [|f2 fs].
  - intros H; right; exists f; auto.
  - intros H; apply in_app_or in H as [H|[H|H]].
    + right; exists f; auto.
    + now left.
    + destruct (IH H) as [Ht|[f' [Hf' Hc]]]; [now left | right; exists f'; auto].
Qed.

Lemma in_encode_field (qf : bool * str) (c : ascii) :
  In c (encode_field qf) -> c = quotechar \/ In c (snd qf).
Proof.
  destruct qf as [[|] f]; unfold encode_field, quote_field; simpl; [|auto].
  intros [H|H]; [now left|].
  apply in_app_or in H as [H|[H|[]]]; [|now left].
  apply in_flat_map in H as [c' [Hc' Hin]].
  destruct (Ascii.eqb c' quotechar) eqn:E.
  - left; destruct Hin as [<-|[<-|[]]]; reflexivity.
  - destruct Hin as [<-|[]]; now right.
Qed.

Lemma encoded_no_break (items : list (bool * str)) :
  Forall item_ok items ->
  forall c, In c (join_tab (map encode_field items)) -> is_line_break c = false.
Proof.
  intros Hok c Hc.
  destruct (in_join_tab _ _ Hc) as [->|[e [He Hce]]]; [reflexivity|].
  apply in_map_iff in He as [qf [<- Hqf]].
  destruct (in_encode_field qf c Hce) as [->|Hin]; [reflexivity|].
  rewrite Forall_forall in Hok; destruct (Hok qf Hqf) as [Hlb _]; now apply Hlb.
Qed.

Lemma read_rows_cons (l : str) (ls : list str) (row : list str) :
  process_line reader_reset l = Ok (mkReader START_RECORD row []) ->
  read_rows (l :: ls) reader_reset = (rows <- read_rows ls reader_reset ;; Ok (row :: rows)).
Proof. intros H; simpl; rewrite H; reflexivity. Qed.

(** ParseCsv reads a non-empty line of quoted and unquoted fields, none of
    them holding a line break or longer than [field_limit], each unquoted
    one holding no tab and not starting with a double quote, into one
    record whose fields are the unquoted texts: a quoted field may hold
    tabs and (doubled) double quotes. *)
Theorem parse_csv_quoted (cols : list str) (items : list (bool * str)) :
  Forall item_ok items -> join_tab (map encode_field items) <> [] ->
  parse_csv cols (join_tab (map encode_field items)) =
  Ok [dict_of_row cols (map snd items)].
Proof.
  intros Hok Hne.
  assert (Hi : items <> []) by (intros ->; now apply Hne).
  unfold parse_csv, splitlines.
  rewrite splitlines_aux_plain by now apply encoded_no_break.
  cbn [app]; destruct (join_tab (map encode_field items)) as [|c0 s'] eqn:E;
    [contradiction|]; rewrite <- E.
  rewrite (read_rows_cons _ [] (map snd items)).
  - simpl. destruct items; [contradiction | reflexivity].
  - apply (process_items items reader_reset Hi Hok); [|reflexivity].
    right; split; [reflexivity | rewrite E; discriminate].
Qed.

Lemma process_plain_line (l : str) :
  l <> [] ->
  (forall c, In c l -> is_line_break c = false) ->
  (forall f, In f (split_tab l) ->
     hd_error f <> Some quotechar /\ (N.of_nat (List.length f) <= field_limit)%N) ->
  process_line reader_reset l = Ok (mkReader START_RECORD (split_tab l) []).
Proof.
  intros Hne Hlb Hfs.
  pose proof (process_items (map (pair false) (split_tab l)) reader_reset) as H.
  rewrite !map_map in H; cbn [encode_field fst snd] in H; rewrite !map_id in H.
  rewrite join_split_tab in H; apply H; clear H; [| | right; split | ]; try reflexivity.
  - pose proof (split_tab_aux_ne l []) as Hn; unfold split_tab.
    destruct (split_tab_aux l []); [contradiction | discriminate].
  - apply Forall_forall; intros qf Hqf; apply in_map_iff in Hqf as [f [<- Hf]].
    destruct (Hfs f Hf) as [Hq Hlen].
    split; [|split; [exact Hlen|]]; cbn [fst snd].
    + intros c Hc; apply Hlb.
      destruct (split_tab_aux_chars l [] f c (fun _ H => match H with end) Hf Hc)
        as [_ [[]|Hin]]; exact Hin.
    + intros _; split; [|exact Hq].
      intros Ht; destruct (split_tab_aux_chars l [] f tab (fun _ H => match H with end) Hf Ht)
        as [Hnt _]; now apply Hnt.
  - exact Hne.
Qed.

Lemma splitlines_aux_line (l eol rest cur : str) :
  (exists b, eol = [b] /\ is_line_break b = true /\ b <> cr) \/ eol = [cr; lf] ->
  (forall c, In c l -> is_line_break c = false) ->
  splitlines_aux (l ++ eol ++ rest) cur = (cur ++ l) :: splitlines_aux rest [].
Proof.
  intros Heol; revert cur; induction l as [|c l IH]; intros cur Hlb; simpl.
  - rewrite app_nil_r.
    destruct Heol as [[b [Hbe [Hb Hcr]]]|Hbe]; rewrite Hbe; simpl.
    + destruct (Ascii.eqb b cr) eqn:E; [apply Ascii.eqb_eq in E; contradiction|].
      now rewrite Hb.
    + reflexivity.
  - assert (Hc : is_line_break c = false) by (apply Hlb; now left).
    assert (Hcr : Ascii.eqb c cr = false).
    { apply crlf_line_break in Hc; unfold is_crlf in Hc.
      now apply Bool.orb_false_iff in Hc as [_ ->]. }
    rewrite Hcr, Hc, IH by (intros c' Hc'; apply Hlb; now right).
    now rewrite <- app_assoc.
Qed.

Lemma splitlines_terminated (eol : str) (ls : list str) :
  (exists b, eol = [b] /\ is_line_break b = true /\ b <> cr) \/ eol = [cr; lf] ->
  (forall l, In l ls -> forall c, In c l -> is_line_break c = false) ->
  splitlines (flat_map (fun l => l ++ eol) ls) = ls.
Proof.
  intros Heol; unfold splitlines; induction ls as [|l ls IH]; intros Hlb; [reflexivity|].
  cbn [flat_map]; rewrite <- app_assoc, splitlines_aux_line; auto.
  - f_equal; apply IH; intros l' Hl'; apply Hlb; now right.
  - apply Hlb; now left.
Qed.

(** ParseCsv reads an input of several lines, all ended by the same line
    boundary of [str.splitlines] (["\r\n"], or one line-break character
    other than ["\r"]: ["\n"], ["\x0b"], ["\x0c"], ["\x1c"], ["\x1d"],
    ["\x1e"] or ["\x85"]), none holding a line break, and none with a field
    that starts with a double quote or is longer than [field_limit], into
    one record per non-empty line, in order; empty lines yield nothing. *)
Theorem parse_csv_lines (cols : list str) (eol : str) (ls : list str) :
  (exists b, eol = [b] /\ is_line_break b = true /\ b <> cr) \/ eol = [cr; lf] ->
  (forall l, In l ls ->
     (forall c, In c l -> is_line_break c = false) /\
     (forall f, In f (split_tab l) ->
        hd_error f <> Some quotechar /\ (N.of_nat (List.length f) <= field_limit)%N)) ->
  parse_csv cols (flat_map (fun l => l ++ eol) ls) =
  Ok (map (fun l => dict_of_row cols (split_tab l))
        (filter (fun l : str => match l with [] => false | _ => true end) ls)).
Proof.
  intros Heol Hls.
  unfold parse_csv; rewrite splitlines_terminated;
    [| exact Heol | intros l Hl; apply (Hls l Hl)].
  assert (Hrows : read_rows ls reader_reset =
                  Ok (map (fun l : str => match l with [] => [] | _ => split_tab l end) ls)).
  { induction ls as [|l ls IH]; [reflexivity|].
    assert (Hl : process_line reader_reset l =
                 Ok (mkReader START_RECORD
                       (match l with [] => [] | _ => split_tab l end) [])).
    { destruct l as [|c l']; [reflexivity|].
      destruct (Hls _ (or_introl eq_refl)) as [Hlb Hfs].
      now apply process_plain_line. }
    rewrite (read_rows_cons _ _ _ Hl), IH; [reflexivity|].
    intros l' Hl'; apply Hls; now right. }
  rewrite Hrows; cbn [bind]; f_equal.
  clear Hls Hrows; induction ls as [|l ls IH]; [reflexivity|].
  destruct l as [|c l']; simpl; [exact IH|].
  pose proof (split_tab_aux_ne (c :: l') []) as Hn; unfold split_tab in *.
  destruct (split_tab_aux (c :: l') []) eqn:E; [contradiction|].
  simpl; f_equal; exact IH.
Qed.

Lemma process_field_too_long (st : reader) (f : str) :
  (rstate st = START_RECORD \/ rstate st = START_FIELD) -> rfield st = [] ->
  (forall c, In c f -> is_line_break c = false /\ c <> tab) ->
  hd_error f <> Some quotechar ->
  (field_limit < N.of_nat (List.length f))%N ->
  process_chars st f = Err CsvError.
Proof.
  intros Hs Hfl Hch Hq Hlong.
  set (L := N.to_nat field_limit).
  assert (HL : N.of_nat L = field_limit) by apply N2Nat.id.
  assert (HLf : (L < List.length f)%nat).
  { rewrite <- HL in Hlong; lia. }
  assert (HL0 : L <> 0%nat) by (intros H; rewrite H in HL; discriminate).
  rewrite <- (firstn_skipn L f), process_chars_app.
  assert (Hin : forall c, In c (firstn L f) \/ In c (skipn L f) -> In c f).
  { intros c Hc; rewrite <- (firstn_skipn L f); now apply in_or_app. }
  assert (Hlen : List.length (firstn L f) = L) by (apply firstn_length_le; lia).
  rewrite (process_field_start st (firstn L f)); auto.
  - cbn [bind].
    destruct (skipn L f) as [|c rest] eqn:Es.
    + apply (f_equal (@List.length ascii)) in Es; rewrite length_skipn in Es; simpl in Es; lia.
    + assert (Hc : In c f) by (apply Hin; right; now left).
      destruct (Hch c Hc) as [Hlb Ht]; apply crlf_line_break in Hlb.
      cbn [process_chars]; unfold process_char; cbn [rstate]; rewrite Hlb.
      destruct (Ascii.eqb c tab) eqn:E; [apply Ascii.eqb_eq in E; contradiction|].
      unfold add_char; cbn [rfield]; rewrite Hlen, HL, N.leb_refl; reflexivity.
  - destruct f as [|c0 f']; [simpl in HLf; lia|].
    destruct L; [contradiction | discriminate].
  - split; [|split].
    + intros c Hc; apply Hch, Hin; now left.
    + destruct f as [|c0 f']; [simpl in HLf; lia|].
      destruct L as [|L']; [contradiction|]; exact Hq.
    + rewrite Hlen, HL; apply N.le_refl.
Qed.

Lemma process_fields_err (fs : list str) (st : reader) :
  fs <> [] ->
  (forall f, In f fs ->
     (forall c, In c f -> is_line_break c = false) /\ ~ In tab f /\
     hd_error f <> Some quotechar) ->
  (exists f, In f fs /\ (field_limit < N.of_nat (List.length f))%N) ->
  (rstate st = START_RECORD \/ rstate st = START_FIELD) -> rfield st = [] ->
  process_line st (join_tab fs) = Err CsvError.
Proof.
  revert st; induction fs as [|f fs IH]; intros st Hne Hfs Hbad Hs Hfl; [contradiction|].
  destruct (Hfs f (or_introl eq_refl)) as [Hlb [Ht Hq]].
  assert (Hch : forall c, In c f -> is_line_break c = false /\ c <> tab).
  { intros c Hc; split; [now apply Hlb|]; intros ->; contradiction. }
  destruct (N.lt_ge_cases field_limit (N.of_nat (List.length f))) as [Hl|Hl].
  - pose proof (process_field_too_long st f Hs Hfl Hch Hq Hl) as He.
    destruct fs as [|f2 fs]; cbn [join_tab]; unfold process_line;
      [now rewrite He | now rewrite process_chars_app, He].
  - destruct Hbad as [fb [[<-|Hfb] Hb]]; [lia|].
    destruct fs as [|f2 fs]; [destruct Hfb|].
    destruct (process_item st (false, f) Hs Hfl) as [st' [Hp [Hfs' [Hf Hst']]]].
    { split; [exact Hlb | split; [exact Hl | intros _; split; assumption]]. }
    cbn [encode_field fst snd] in Hp, Hf.
    change (join_tab (f :: f2 :: fs)) with (f ++ tab :: join_tab (f2 :: fs)).
    unfold process_line; rewrite process_chars_app, Hp; cbn [bind].
    cbn [process_chars]; rewrite end_field_tab; cbn [bind].
    + pose proof (IH (save_field st' START_FIELD)) as IH'.
      unfold process_line in IH'; apply IH'; try discriminate; try reflexivity.
      * intros f' Hf'; apply Hfs; now right.
      * exists fb; split; assumption.
      * now right.
    + destruct Hst' as [H|[H|[-> _]]]; auto.
      destruct Hs as [H|H]; auto.
Qed.

(** ParseCsv raises [csv.Error] on a line with no line break and no field
    starting with a double quote, one of whose fields is longer than
    [csv.field_size_limit()], 131072 characters. *)
Theorem parse_csv_field_too_long (cols : list str) (s : str) :
  (forall c, In c s -> is_line_break c = false) ->
  (forall f, In f (split_tab s) -> hd_error f <> Some quotechar) ->
  (exists f, In f (split_tab s) /\ (field_limit < N.of_nat (List.length f))%N) ->
  parse_csv cols s = Err CsvError.
Proof.
  intros Hlb Hq Hbad.
  assert (He : process_line reader_reset s = Err CsvError).
  { rewrite <- (join_split_tab s).
    apply process_fields_err; auto.
    - apply split_tab_aux_ne.
    - intros f Hf; split; [|split; [|now apply Hq]].
      + intros c Hc.
        destruct (split_tab_aux_chars s [] f c (fun _ H => match H with end) Hf Hc)
          as [_ [[]|Hin]]; now apply Hlb.
      + intros Ht.
        destruct (split_tab_aux_chars s [] f tab (fun _ H => match H with end) Hf Ht)
          as [Hnt _]; now apply Hnt. }
  unfold parse_csv, splitlines; rewrite splitlines_aux_plain by exact Hlb.
  destruct s as [|c0 s']; [simpl in He; discriminate|].
  cbn [app read_rows]; rewrite He; reflexivity.
Qed.

(** ** The records [ParseCsv] yields *)

Lemma dict_set_fresh (d : record) (k : pykey) (v : value) :
  ~ In k (keys d) -> dict_set d k v = d ++ [(k, v)].
Proof.
  induction d as [|[k0 v0] d IH]; simpl; intros Hn; [reflexivity|].
  rewrite pykey_eqb_neq by (intros ->; apply Hn; now left).
  f_equal; apply IH; intros H; apply Hn; now right.
Qed.

Lemma fold_set_fresh (l d : record) :
  NoDup (keys d ++ keys l) ->
  fold_left (fun acc kv => dict_set acc (fst kv) (snd kv)) l d = d ++ l.
Proof.
  revert d; induction l as [|[k v] l IH]; intros d Hnd; simpl; [now rewrite app_nil_r|].
  rewrite dict_set_fresh.
  - rewrite IH; [now rewrite <- app_assoc|].
    unfold keys in *; rewrite map_app, <- app_assoc; exact Hnd.
  - intros Hin; unfold keys in Hnd; simpl in Hnd.
    apply (NoDup_app_disjoint _ _ k Hnd Hin); now left.
Qed.

Lemma in_firstn_combine (cols fs : list str) (c : str) :
  In c (firstn (List.length fs) cols) -> exists f, In (c, f) (combine cols fs).
Proof.
  revert fs; induction cols as [|c0 cs IH]; intros [|f fs] Hin; simpl in *;
    try destruct Hin.
  - exists f; left; now subst.
  - destruct (IH fs H) as [f' Hf']; exists f'; now right.
Qed.

Lemma dict_of_row_keys (cols fs : list str) :
  NoDup cols ->
  keys (dict_of_row cols fs) =
  map Col cols ++ (if Nat.ltb (List.length cols) (List.length fs) then [NoneKey] else []).
Proof.
  intros Hnd.
  pose proof (pairs_NoDup cols fs Hnd) as Hpn.
  pose proof (pairs_keys cols fs) as Hpk.
  set (pairs := map (fun kv => (Col (fst kv), VStr (snd kv))) (combine cols fs)) in *.
  assert (Hd : fold_left (fun acc kv => dict_set acc (Col (fst kv)) (VStr (snd kv)))
                 (combine cols fs) [] = pairs).
  { rewrite (fold_set_map (fun kv => (Col (fst kv), VStr (snd kv)))).
    apply fold_set_fresh; exact Hpn. }
  unfold dict_of_row; rewrite Hd.
  destruct (Nat.ltb (List.length cols) (List.length fs)) eqn:E1.
  - apply Nat.ltb_lt in E1.
    rewrite dict_set_fresh.
    + unfold keys; rewrite map_app; fold (keys pairs); rewrite Hpk.
      rewrite firstn_all2 by lia; reflexivity.
    + rewrite Hpk; intros H; apply in_map_iff in H as [c [Hc _]]; discriminate.
  - apply Nat.ltb_ge in E1.
    destruct (Nat.ltb (List.length fs) (List.length cols)) eqn:E2.
    + rewrite (fold_set_map (fun c => (Col c, VNone))), fold_set_fresh.
      * unfold keys; rewrite map_app, map_map; fold (keys pairs); rewrite Hpk.
        cbn [fst]; rewrite <- map_app, firstn_skipn, app_nil_r; reflexivity.
      * rewrite Hpk; unfold keys; rewrite map_map; cbn [fst].
        rewrite <- map_app, firstn_skipn; now apply NoDup_map_Col.
    + apply Nat.ltb_ge in E2.
      rewrite Hpk, firstn_all2 by lia; now rewrite app_nil_r.
Qed.

Lemma dict_of_row_raw (cols fs : list str) (c : str) :
  NoDup cols -> In c cols ->
  exists v, dict_lookup (dict_of_row cols fs) (Col c) = Some v /\ raw_value v.
Proof.
  intros Hnd Hc.
  rewrite <- (firstn_skipn (List.length fs) cols) in Hc.
  apply in_app_or in Hc as [Hc|Hc].
  - destruct (in_firstn_combine cols fs c Hc) as [f Hf].
    exists (VStr f); split; [now apply dict_of_row_combine | right; now exists f].
  - exists VNone; split; [now apply dict_of_row_missing | now left].
Qed.

Lemma parse_csv_in (cols : list str) (s : str) (rs : list record) (r : record) :
  parse_csv cols s = Ok rs -> In r rs -> exists row, r = dict_of_row cols row.
Proof.
  unfold parse_csv; destruct (read_rows (splitlines s) reader_reset); [|discriminate].
  cbn [bind]; intros H Hin; injection H as <-.
  apply in_map_iff in Hin as [row [<- _]]; now exists row.
Qed.

(** Every record ParseCsv yields has the schema columns as keys, in schema
    order, possibly followed by the key [None] and by nothing else; each
    schema column holds a string or [None]. *)
Theorem parse_csv_record_shape (cols : list str) (s : str) (rs : list record) :
  NoDup cols -> parse_csv cols s = Ok rs ->
  forall r, In r rs ->
    (keys r = map Col cols \/ keys r = map Col cols ++ [NoneKey]) /\
    (forall c, In c cols -> exists v, dict_lookup r (Col c) = Some v /\ raw_value v).
Proof.
  intros Hnd Hp r Hr.
  destruct (parse_csv_in cols s rs r Hp Hr) as [row ->].
  split.
  - rewrite dict_of_row_keys by exact Hnd.
    destruct (Nat.ltb (List.length cols) (List.length row)); [now right | left].
    apply app_nil_r.
  - intros c Hc; now apply dict_of_row_raw.
Qed.

(** ** [CleanData] on any record *)

Lemma dict_set_keys (d : record) (k : pykey) (v w : value) :
  dict_lookup d k = Some v -> keys (dict_set d k w) = keys d.
Proof.
  induction d as [|[k0 v0] d IH]; simpl; [discriminate|].
  destruct (pykey_eqb k k0); simpl; [reflexivity|].
  intros H; f_equal; now apply IH.
Qed.

Lemma update_cols_keys (f : value -> result value) (cols : list str) (r r' : record) :
  update_cols f cols r = Ok r' -> keys r' = keys r.
Proof.
  revert r; induction cols as [|c cs IH]; intros r Hu; simpl in Hu;
    [now injection Hu as <-|].
  unfold dict_get in Hu; destruct (dict_lookup r (Col c)) as [v|] eqn:E; [|discriminate].
  cbn [bind] in Hu; destruct (f v) as [w|]; [|discriminate]; cbn [bind] in Hu.
  rewrite (IH _ Hu); now apply (dict_set_keys r (Col c) v).
Qed.

Lemma update_cols_other (f : value -> result value) (cols : list str) (r r' : record)
  (k : pykey) :
  update_cols f cols r = Ok r' -> in_cols k cols = false ->
  dict_lookup r' k = dict_lookup r k.
Proof.
  revert r; induction cols as [|c cs IH]; intros r Hu Hk; simpl in Hu;
    [now injection Hu as <-|].
  rewrite in_cols_cons in Hk; apply Bool.orb_false_iff in Hk as [Hkc Hk].
  destruct (dict_get r (Col c)) as [v|]; [|discriminate]; cbn [bind] in Hu.
  destruct (f v) as [w|]; [|discriminate]; cbn [bind] in Hu.
  rewrite (IH _ Hu Hk), dict_lookup_set, Hkc; reflexivity.
Qed.

Lemma update_cols_present (f : value -> result value) (cols : list str) (r r' : record)
  (c : str) :
  update_cols f cols r = Ok r' -> In c cols -> dict_lookup r (Col c) <> None.
Proof.
  revert r; induction cols as [|c0 cs IH]; intros r Hu Hc; simpl in Hu; [destruct Hc|].
  unfold dict_get in Hu; destruct (dict_lookup r (Col c0)) as [v|] eqn:E; [|discriminate].
  cbn [bind] in Hu; destruct (f v) as [w|]; [|discriminate]; cbn [bind] in Hu.
  destruct Hc as [<-|Hc]; [now rewrite E|].
  pose proof (IH _ Hu Hc) as H; rewrite dict_lookup_set in H.
  destruct (pykey_eqb (Col c) (Col c0)) eqn:Eq; [|exact H].
  apply pykey_eqb_spec in Eq; rewrite Eq, E; discriminate.
Qed.

Lemma update_cols_err (f : value -> result value) (cols : list str) (r : record)
  (e : exn) :
  NoDup cols -> update_cols f cols r = Err e ->
  e = KeyError \/
  exists c v, In c cols /\ dict_lookup r (Col c) = Some v /\ f v = Err e.
Proof.
  revert r; induction cols as [|c cs IH]; intros r Hnd Hu; simpl in Hu; [discriminate|].
  inversion Hnd as [|? ? Hn Hnd']; subst.
  unfold dict_get in Hu; destruct (dict_lookup r (Col c)) as [v|] eqn:E;
    cbn [bind] in Hu; [|injection Hu as <-; now left].
  destruct (f v) as [w|] eqn:Ef; cbn [bind] in Hu.
  - destruct (IH _ Hnd' Hu) as [He|[c' [v' [Hc' [Hl Hf]]]]]; [now left|].
    right; exists c', v'; split; [now right|split; [|exact Hf]].
    rewrite dict_lookup_set in Hl.
    rewrite pykey_eqb_neq in Hl; [exact Hl|].
    intros Heq; injection Heq as ->; contradiction.
  - injection Hu as <-; right; exists c, v; split; [now left | split; assumption].
Qed.

Section CleanMore.

Variable int_of_str : str -> option Z.
Variable float_of_str : str -> option Q.

Lemma clean_steps (cfg : clean_config) (r0 r : record) :
  clean int_of_str float_of_str cfg r0 = Ok r ->
  exists r2 r3,
    update_cols coerce_bool (bool_cols cfg) (map_sentinel r0) = Ok r2 /\
    update_cols (coerce_numeric (int_func int_of_str)) (int_cols cfg) r2 = Ok r3 /\
    update_cols (coerce_numeric (float_func float_of_str)) (float_cols cfg) r3 = Ok r.
Proof.
  unfold clean; intros H.
  destruct (update_cols coerce_bool (bool_cols cfg) (map_sentinel r0)) as [r2|] eqn:E2;
    [|discriminate]; cbn [bind] in H.
  rewrite parse_numeric_int in H.
  destruct (update_cols (coerce_numeric (int_func int_of_str)) (int_cols cfg) r2)
    as [r3|] eqn:E3; [|discriminate]; cbn [bind] in H.
  rewrite parse_numeric_float in H.
  exists r2, r3; auto.
Qed.

(** CleanData neither adds nor removes a field, and keeps their order. *)
Theorem clean_keys (cfg : clean_config) (r0 r : record) :
  clean int_of_str float_of_str cfg r0 = Ok r -> keys r = keys r0.
Proof.
  intros H; destruct (clean_steps cfg r0 r H) as [r2 [r3 [H2 [H3 H4]]]].
  rewrite (update_cols_keys _ _ _ _ H4), (update_cols_keys _ _ _ _ H3),
    (update_cols_keys _ _ _ _ H2).
  unfold map_sentinel, keys; rewrite map_map; reflexivity.
Qed.

(** CleanData changes a field outside its configured columns only by
    mapping ["\N"] to [None]. *)
Theorem clean_other_columns (cfg : clean_config) (r0 r : record) (k : pykey) :
  clean int_of_str float_of_str cfg r0 = Ok r ->
  in_cols k (all_cols cfg) = false ->
  dict_lookup r k = option_map unsentinel (dict_lookup r0 k).
Proof.
  intros H Hk; destruct (clean_steps cfg r0 r H) as [r2 [r3 [H2 [H3 H4]]]].
  unfold all_cols in Hk; rewrite !in_cols_app in Hk.
  apply Bool.orb_false_iff in Hk as [Hb Hk]; apply Bool.orb_false_iff in Hk as [Hi Hf].
  rewrite (update_cols_other _ _ _ _ _ H4 Hf), (update_cols_other _ _ _ _ _ H3 Hi),
    (update_cols_other _ _ _ _ _ H2 Hb), map_sentinel_as_map, dict_lookup_map_vals.
  reflexivity.
Qed.

(** CleanData raises [KeyError] on a record that lacks one of its
    configured columns (the other configured columns holding, as ParseCsv
    leaves them, a string or [None]). *)
Theorem clean_missing_column (cfg : clean_config) (r0 : record) :
  cfg_ok cfg ->
  (forall c v, In c (all_cols cfg) -> dict_lookup r0 (Col c) = Some v -> raw_value v) ->
  (exists c, In c (all_cols cfg) /\ dict_lookup r0 (Col c) = None) ->
  clean int_of_str float_of_str cfg r0 = Err KeyError.
Proof.
  intros Hok Hraw [cm [Hcm Hnone]].
  destruct (cfg_ok_NoDup cfg Hok) as [Hbn [Hin Hfn]].
  assert (Hr1 : forall k, dict_lookup (map_sentinel r0) k =
                          option_map unsentinel (dict_lookup r0 k)).
  { intros k; now rewrite map_sentinel_as_map, dict_lookup_map_vals. }
  assert (Hraw1 : forall c v, In c (all_cols cfg) ->
                    dict_lookup (map_sentinel r0) (Col c) = Some v -> raw_value v).
  { intros c v Hc Hl; rewrite Hr1 in Hl.
    destruct (dict_lookup r0 (Col c)) as [v0|] eqn:E; [|discriminate].
    injection Hl as <-; apply raw_value_unsentinel; now apply (Hraw c). }
  unfold clean.
  destruct (update_cols coerce_bool (bool_cols cfg) (map_sentinel r0)) as [r2|e] eqn:E2;
    cbn [bind].
  2: { destruct (update_cols_err _ _ _ _ Hbn E2) as [->|[c [v [_ [_ Hf]]]]];
         [reflexivity | discriminate]. }
  assert (H2 : forall c, In c (int_cols cfg ++ float_cols cfg) ->
                 dict_lookup r2 (Col c) = dict_lookup (map_sentinel r0) (Col c)).
  { intros c Hc; apply (update_cols_other _ _ _ _ _ E2).
    destruct (in_cols (Col c) (bool_cols cfg)) eqn:Eb; [|reflexivity].
    destruct (cfg_ok_disjoint cfg (Col c) Hok) as [Hd _].
    destruct (Hd Eb) as [Hi Hf].
    apply in_app_or in Hc as [Hc|Hc]; apply in_cols_Col in Hc; congruence. }
  rewrite parse_numeric_int.
  destruct (update_cols (coerce_numeric (int_func int_of_str)) (int_cols cfg) r2)
    as [r3|e] eqn:E3; cbn [bind].
  2: { destruct (update_cols_err _ _ _ _ Hin E3) as [->|[c [v [Hc [Hl Hf]]]]];
         [reflexivity|].
       rewrite H2 in Hl by (apply in_or_app; now left).
       rewrite coerce_int_raw in Hf; [discriminate|].
       apply (Hraw1 c v); [unfold all_cols; apply in_or_app; right;
                           apply in_or_app; now left | exact Hl]. }
  assert (H3 : forall c, In c (float_cols cfg) ->
                 dict_lookup r3 (Col c) = dict_lookup (map_sentinel r0) (Col c)).
  { intros c Hc; rewrite <- H2 by (apply in_or_app; now right).
    apply (update_cols_other _ _ _ _ _ E3).
    destruct (in_cols (Col c) (int_cols cfg)) eqn:Ei; [|reflexivity].
    destruct (cfg_ok_disjoint cfg (Col c) Hok) as [_ Hd].
    apply in_cols_Col in Hc; rewrite (Hd Ei) in Hc; discriminate. }
  rewrite parse_numeric_float.
  destruct (update_cols (coerce_numeric (float_func float_of_str)) (float_cols cfg) r3)
    as [r4|e] eqn:E4.
  2: { destruct (update_cols_err _ _ _ _ Hfn E4) as [->|[c [v [Hc [Hl Hf]]]]];
         [reflexivity|].
       rewrite H3 in Hl by exact Hc.
       rewrite coerce_float_raw in Hf; [discriminate|].
       apply (Hraw1 c v); [unfold all_cols; apply in_or_app; right;
                           apply in_or_app; now right | exact Hl]. }
  exfalso.
  assert (Hn1 : dict_lookup (map_sentinel r0) (Col cm) = None) by now rewrite Hr1, Hnone.
  unfold all_cols in Hcm; apply in_app_or in Hcm as [Hc|Hc].
  - exact (update_cols_present _ _ _ _ _ E2 Hc Hn1).
  - apply in_app_or in Hc as [Hc|Hc].
    + apply (update_cols_present _ _ _ _ _ E3 Hc).
      rewrite H2 by (apply in_or_app; now left); exact Hn1.
    + apply (update_cols_present _ _ _ _ _ E4 Hc).
      rewrite H3 by exact Hc; exact Hn1.
Qed.

End CleanMore.

(** ** The pipeline of [run] *)

Lemma flat_map_r_in {A B : Type} (f : A -> result (list B)) (l : list A) (ys : list B)
  (y : B) :
  flat_map_r f l = Ok ys -> In y ys -> exists x zs, In x l /\ f x = Ok zs /\ In y zs.
Proof.
  revert ys; induction l as [|x xs IH]; intros ys H Hy; simpl in H.
  - injection H as <-; destruct Hy.
  - destruct (f x) as [zs|] eqn:E; [|discriminate]; cbn [bind] in H.
    destruct (flat_map_r f xs) as [ws|] eqn:E'; [|discriminate]; cbn [bind] in H.
    injection H as <-; apply in_app_or in Hy as [Hy|Hy].
    + exists x, zs; split; [now left | split; assumption].
    + destruct (IH ws eq_refl Hy) as [x' [zs' [Hx [Hf Hin]]]].
      exists x', zs'; split; [now right | split; assumption].
Qed.

Lemma flat_map_r_err {A B : Type} (f : A -> result (list B)) (l : list A) (e : exn) :
  flat_map_r f l = Err e -> exists x, In x l /\ f x = Err e.
Proof.
  induction l as [|x xs IH]; intros H; simpl in H; [discriminate|].
  destruct (f x) as [zs|e'] eqn:E; cbn [bind] in H.
  - destruct (flat_map_r f xs) as [ws|e''] eqn:E'; cbn [bind] in H; [discriminate|].
    injection H as ->; destruct (IH eq_refl) as [x' [Hx Hf]].
    exists x'; split; [now right | exact Hf].
  - injection H as ->; exists x; split; [now left | exact E].
Qed.

Lemma process_char_err (st : reader) (c : pchar) (e : exn) :
  process_char st c = Err e -> e = CsvError.
Proof.
  destruct st as [p fs fl]; unfold process_char, start_field, add_char, set_state;
    cbn [rstate rfield rfields].
  destruct p, c as [x|]; try discriminate;
    repeat match goal with
           | |- context [if ?b then _ else _] => destruct b
           end; congruence.
Qed.

Lemma process_chars_err (st : reader) (s : str) (e : exn) :
  process_chars st s = Err e -> e = CsvError.
Proof.
  revert st; induction s as [|c s IH]; intros st H; simpl in H; [discriminate|].
  destruct (process_char st (Chr c)) eqn:E; cbn [bind] in H;
    [exact (IH _ H) | injection H as ->; exact (process_char_err _ _ _ E)].
Qed.

Lemma read_rows_err (lines : list str) (st : reader) (e : exn) :
  read_rows lines st = Err e -> e = CsvError.
Proof.
  revert st; induction lines as [|l ls IH]; intros st H; simpl in H.
  - destruct (_ || _)%bool; discriminate.
  - unfold process_line in H.
    destruct (process_chars st l) as [st1|e1] eqn:E1; cbn [bind] in H.
    + destruct (process_char st1 EOL) as [st2|e2] eqn:E2; cbn [bind] in H.
      * destruct (pstate_eqb (rstate st2) START_RECORD).
        -- destruct (read_rows ls reader_reset) eqn:E3; cbn [bind] in H;
             [discriminate | injection H as ->; exact (IH _ E3)].
        -- exact (IH _ H).
      * injection H as ->; exact (process_char_err _ _ _ E2).
    + injection H as ->; exact (process_chars_err _ _ _ E1).
Qed.

Lemma parse_csv_err (cols : list str) (s : str) (e : exn) :
  parse_csv cols s = Err e -> e = CsvError.
Proof.
  unfold parse_csv; destruct (read_rows (splitlines s) reader_reset) eqn:E;
    cbn [bind]; [discriminate | intros H; injection H as ->; exact (read_rows_err _ _ _ E)].
Qed.

Lemma dict_of_row_NoDup (cols fs : list str) :
  NoDup cols -> NoDup (keys (dict_of_row cols fs)).
Proof.
  intros Hnd; rewrite dict_of_row_keys by exact Hnd.
  apply NoDup_app; [now apply NoDup_map_Col | |].
  - destruct (Nat.ltb _ _); repeat constructor; auto.
  - intros k Hk Hk'; apply in_map_iff in Hk as [c [<- _]].
    destruct (Nat.ltb _ _); [destruct Hk' as [H|[]]; discriminate | destruct Hk'].
Qed.

Lemma filter_basic_kept (r m : record) (zs : list record) :
  filter_basic r = Ok zs -> In m zs ->
  m = r /\
  dict_lookup r (Col (lit "titleType")) = Some (VStr (lit "movie")) /\
  (exists a, dict_lookup r (Col (lit "isAdult")) = Some a /\ truthy a = false) /\
  (exists y, dict_lookup r (Col (lit "startYear")) = Some y /\ truthy y = true /\
             py_ge y (1970 # 1) = Ok true).
Proof.
  unfold filter_basic, dict_get.
  destruct (dict_lookup r (Col (lit "titleType"))) as [t|] eqn:Lt; [|discriminate];
    cbn [bind].
  destruct (eq_str t (lit "movie")) eqn:Et; [|intros H Hm; injection H as <-; destruct Hm].
  destruct (dict_lookup r (Col (lit "isAdult"))) as [a|] eqn:La; [|discriminate];
    cbn [bind].
  destruct (truthy a) eqn:Ea; [intros H Hm; injection H as <-; destruct Hm|].
  destruct (dict_lookup r (Col (lit "startYear"))) as [y|] eqn:Ly; [|discriminate];
    cbn [bind].
  destruct (truthy y) eqn:Ey; [|intros H Hm; injection H as <-; destruct Hm].
  destruct (py_ge y (1970 # 1)) as [b|] eqn:Py; [|discriminate]; cbn [bind].
  intros H Hm; injection H as <-; destruct b; [|destruct Hm].
  destruct Hm as [<-|[]].
  destruct t; try discriminate; apply str_eqb_spec in Et; subst.
  split; [reflexivity | split; [reflexivity | split]].
  - exists a; auto.
  - exists y; auto.
Qed.

Lemma filter_rating_kept (r m : record) (zs : list record) :
  filter_rating r = Ok zs -> In m zs ->
  m = r /\
  exists a, dict_lookup r (Col (lit "averageRating")) = Some a /\ truthy a = true /\
            py_ge a (5 # 1) = Ok true.
Proof.
  unfold filter_rating, dict_get.
  destruct (dict_lookup r (Col (lit "averageRating"))) as [a|] eqn:La; [|discriminate];
    cbn [bind].
  destruct (truthy a) eqn:Ea; [|intros H Hm; injection H as <-; destruct Hm].
  destruct (py_ge a (5 # 1)) as [b|] eqn:Py; [|discriminate]; cbn [bind].
  intros H Hm; injection H as <-; destruct b; [|destruct Hm].
  destruct Hm as [<-|[]]; split; [reflexivity | exists a; auto].
Qed.

Lemma mergedicts_lookup (a b : record) (k : pykey) :
  NoDup (keys a) -> NoDup (keys b) ->
  dict_lookup (mergedicts (a, b)) k =
  match dict_lookup b k with Some v => Some v | None => dict_lookup a k end.
Proof.
  intros Ha Hb; unfold mergedicts; cbn [fst snd].
  rewrite dict_lookup_fold_set, rev_app_distr, dict_lookup_app,
    dict_lookup_rev, dict_lookup_rev by assumption.
  destruct (dict_lookup b k), (dict_lookup a k); reflexivity.
Qed.

Lemma key_by_tconst_total (rs : list record) :
  (forall r, In r rs -> dict_lookup r (Col (lit "tconst")) <> None) ->
  exists kvs, key_by_tconst rs = Ok kvs.
Proof.
  induction rs as [|r rs IH]; intros H; simpl; [now exists []|].
  unfold tconst, dict_get.
  destruct (dict_lookup r (Col (lit "tconst"))) eqn:E;
    [|exfalso; apply (H r); [now left | exact E]].
  cbn [bind]; destruct IH as [kvs ->]; [intros r' Hr'; apply H; now right|].
  cbn [bind]; eexists; reflexivity.
Qed.

Lemma basic_cfg_ok : cfg_ok basic_cfg.
Proof. repeat constructor; simpl; intuition discriminate. Qed.

Lemma rating_cfg_ok : cfg_ok rating_cfg.
Proof. repeat constructor; simpl; intuition discriminate. Qed.

Lemma columns_title_basic_NoDup : NoDup columns_title_basic.
Proof. repeat constructor; simpl; intuition discriminate. Qed.

Lemma columns_ratings_NoDup : NoDup columns_ratings.
Proof. repeat constructor; simpl; intuition discriminate. Qed.

Section PipelineProofs.

Variable int_of_str : str -> option Z.
Variable float_of_str : str -> option Q.

Let h (cfg : clean_config) (k : pykey) (v : value) : value :=
  clean_value cfg (numeric_value int_of_str VInt) (numeric_value float_of_str VFloat) k
    (unsentinel v).

(** [CleanData] on a record from [ParseCsv] over a schema holding all the
    configured columns. *)
Lemma clean_parsed (cfg : clean_config) (cols row : list str) :
  cfg_ok cfg -> NoDup cols -> incl (all_cols cfg) cols ->
  clean int_of_str float_of_str cfg (dict_of_row cols row) =
  Ok (map_vals (h cfg) (dict_of_row cols row)).
Proof.
  intros Hok Hnd Hincl; apply clean_raw; [exact Hok | now apply dict_of_row_NoDup|].
  intros c Hc; apply dict_of_row_raw; [exact Hnd | now apply Hincl].
Qed.

Lemma branch_in (cols : list str) (cfg : clean_config)
  (filt : record -> result (list record)) (lines : list str) (bs : list record)
  (b : record) :
  cfg_ok cfg -> NoDup cols -> incl (all_cols cfg) cols ->
  (rs <- flat_map_r (parse_csv cols) lines ;;
   cs <- flat_map_r (fun r => c <- clean int_of_str float_of_str cfg r ;; Ok [c]) rs ;;
   flat_map_r filt cs) = Ok bs ->
  In b bs ->
  exists row zs, filt (map_vals (h cfg) (dict_of_row cols row)) = Ok zs /\ In b zs.
Proof.
  intros Hok Hnd Hincl H Hb.
  destruct (flat_map_r (parse_csv cols) lines) as [rs|] eqn:E1; [|discriminate];
    cbn [bind] in H.
  destruct (flat_map_r _ rs) as [cs|] eqn:E2; [|discriminate]; cbn [bind] in H.
  destruct (flat_map_r_in _ _ _ _ H Hb) as [c [zs [Hc [Hf Hin]]]].
  destruct (flat_map_r_in _ _ _ _ E2 Hc) as [r [ws [Hr [Hcl Hcw]]]].
  destruct (flat_map_r_in _ _ _ _ E1 Hr) as [s [ps [_ [Hp Hrp]]]].
  destruct (parse_csv_in cols s ps r Hp Hrp) as [row ->].
  rewrite clean_parsed in Hcl by assumption; cbn [bind] in Hcl.
  injection Hcl as <-; destruct Hcw as [<-|[]].
  exists row, zs; split; assumption.
Qed.

Lemma branch_err (cols : list str) (cfg : clean_config)
  (filt : record -> result (list record)) (lines : list str) (e : exn) :
  cfg_ok cfg -> NoDup cols -> incl (all_cols cfg) cols ->
  (forall row, exists zs, filt (map_vals (h cfg) (dict_of_row cols row)) = Ok zs) ->
  (rs <- flat_map_r (parse_csv cols) lines ;;
   cs <- flat_map_r (fun r => c <- clean int_of_str float_of_str cfg r ;; Ok [c]) rs ;;
   flat_map_r filt cs) = Err e ->
  e = CsvError.
Proof.
  intros Hok Hnd Hincl Hfilt H.
  destruct (flat_map_r (parse_csv cols) lines) as [rs|e1] eqn:E1; cbn [bind] in H.
  2: { injection H as ->; destruct (flat_map_r_err _ _ _ E1) as [s [_ Hs]].
       exact (parse_csv_err _ _ _ Hs). }
  destruct (flat_map_r _ rs) as [cs|e2] eqn:E2; cbn [bind] in H.
  - destruct (flat_map_r_err _ _ _ H) as [c [Hc Hf]].
    destruct (flat_map_r_in _ _ _ _ E2 Hc) as [r [ws [Hr [Hcl Hcw]]]].
    destruct (flat_map_r_in _ _ _ _ E1 Hr) as [s [ps [_ [Hp Hrp]]]].
    destruct (parse_csv_in cols s ps r Hp Hrp) as [row ->].
    rewrite clean_parsed in Hcl by assumption; cbn [bind] in Hcl.
    injection Hcl as <-; destruct Hcw as [<-|[]].
    destruct (Hfilt row) as [zs Hz]; congruence.
  - injection H as ->; destruct (flat_map_r_err _ _ _ E2) as [r [Hr Hcl]].
    destruct (flat_map_r_in _ _ _ _ E1 Hr) as [s [ps [_ [Hp Hrp]]]].
    destruct (parse_csv_in cols s ps r Hp Hrp) as [row ->].
    rewrite clean_parsed in Hcl by assumption; discriminate.
Qed.

Lemma incl_basic : incl (all_cols basic_cfg) columns_title_basic.
Proof. intros c Hc; simpl in Hc; simpl; intuition. Qed.

Lemma incl_rating : incl (all_cols rating_cfg) columns_ratings.
Proof. intros c Hc; simpl in Hc; simpl; intuition. Qed.

(** The cleaned basic and rating records, as [FilterBasicData] and
    [FilterRatingData] read them. *)
Lemma cleaned_basic_fields (row : list str) :
  let r := map_vals (h basic_cfg) (dict_of_row columns_title_basic row) in
  (exists t, dict_lookup r (Col (lit "titleType")) = Some t) /\
  (exists b, dict_lookup r (Col (lit "isAdult")) = Some (VBool b)) /\
  (dict_lookup r (Col (lit "startYear")) = Some VNone \/
   exists z, dict_lookup r (Col (lit "startYear")) = Some (VInt z)) /\
  dict_lookup r (Col (lit "tconst")) <> None.
Proof.
  intros r.
  pose proof (clean_parsed basic_cfg columns_title_basic row basic_cfg_ok
                columns_title_basic_NoDup incl_basic) as Hc.
  destruct (dict_of_row_raw columns_title_basic row (lit "titleType")
              columns_title_basic_NoDup) as [v [Hv _]]; [simpl; intuition|].
  destruct (clean_basic_fields int_of_str float_of_str _ _ Hc) as [H1 [H2 H3]];
    [congruence|].
  split; [exact H1 | split; [exact H2 | split; [exact H3|]]].
  subst r; rewrite dict_lookup_map_vals.
  destruct (dict_of_row_raw columns_title_basic row (lit "tconst")
              columns_title_basic_NoDup) as [w [Hw _]]; [simpl; intuition|].
  rewrite Hw; discriminate.
Qed.

Lemma cleaned_rating_fields (row : list str) :
  let r := map_vals (h rating_cfg) (dict_of_row columns_ratings row) in
  (dict_lookup r (Col (lit "averageRating")) = Some VNone \/
   exists q, dict_lookup r (Col (lit "averageRating")) = Some (VFloat q)) /\
  dict_lookup r (Col (lit "tconst")) <> None.
Proof.
  intros r.
  pose proof (clean_parsed rating_cfg columns_ratings row rating_cfg_ok
                columns_ratings_NoDup incl_rating) as Hc.
  split; [exact (clean_rating_average int_of_str float_of_str _ _ Hc)|].
  subst r; rewrite dict_lookup_map_vals.
  destruct (dict_of_row_raw columns_ratings row (lit "tconst")
              columns_ratings_NoDup) as [w [Hw _]]; [simpl; intuition|].
  rewrite Hw; discriminate.
Qed.

Lemma filter_basic_cleaned (row : list str) :
  exists zs, filter_basic (map_vals (h basic_cfg) (dict_of_row columns_title_basic row))
             = Ok zs.
Proof.
  destruct (cleaned_basic_fields row) as [[t Ht] [[b Hb] [Hy _]]].
  unfold filter_basic, dict_get; rewrite Ht; cbn [bind].
  destruct (eq_str t (lit "movie")); [|eexists; reflexivity].
  rewrite Hb; cbn [bind truthy].
  destruct b; [eexists; reflexivity|].
  destruct Hy as [Hy|[z Hy]]; rewrite Hy; cbn [bind truthy py_ge];
    [eexists; reflexivity|].
  destruct (negb (Z.eqb z 0)); cbn [bind]; eexists; reflexivity.
Qed.

Lemma filter_rating_cleaned (row : list str) :
  exists zs, filter_rating (map_vals (h rating_cfg) (dict_of_row columns_ratings row))
             = Ok zs.
Proof.
  destruct (cleaned_rating_fields row) as [[Ha|[q Ha]] _];
    unfold filter_rating, dict_get; rewrite Ha; cbn [bind truthy py_ge];
    [eexists; reflexivity|].
  destruct (negb (Qeq_bool q 0)); cbn [bind]; eexists; reflexivity.
Qed.

Lemma basic_branch_in (lines : list str) (bs : list record) (b : record) :
  basic_branch int_of_str float_of_str lines = Ok bs -> In b bs ->
  exists row zs,
    filter_basic (map_vals (h basic_cfg) (dict_of_row columns_title_basic row)) = Ok zs /\
    In b zs.
Proof.
  apply branch_in; [exact basic_cfg_ok | exact columns_title_basic_NoDup | exact incl_basic].
Qed.

Lemma rating_branch_in (lines : list str) (rs : list record) (b : record) :
  rating_branch int_of_str float_of_str lines = Ok rs -> In b rs ->
  exists row zs,
    filter_rating (map_vals (h rating_cfg) (dict_of_row columns_ratings row)) = Ok zs /\
    In b zs.
Proof.
  apply branch_in; [exact rating_cfg_ok | exact columns_ratings_NoDup | exact incl_rating].
Qed.

Lemma branches_keyed (lines_b lines_r : list str) (bs rs : list record) :
  basic_branch int_of_str float_of_str lines_b = Ok bs ->
  rating_branch int_of_str float_of_str lines_r = Ok rs ->
  (exists mk, key_by_tconst bs = Ok mk) /\ (exists rk, key_by_tconst rs = Ok rk).
Proof.
  intros Hb Hr; split; apply key_by_tconst_total; intros r Hin.
  - destruct (basic_branch_in _ _ _ Hb Hin) as [row [zs [Hf Hz]]].
    destruct (filter_basic_kept _ _ _ Hf Hz) as [-> _].
    apply (cleaned_basic_fields row).
  - destruct (rating_branch_in _ _ _ Hr Hin) as [row [zs [Hf Hz]]].
    destruct (filter_rating_kept _ _ _ Hf Hz) as [-> _].
    apply (cleaned_rating_fields row).
Qed.

(** The only exception the pipeline of [run] can raise is the [csv.Error]
    of an over-long field: cleaning, filtering and keying never raise on
    what ParseCsv yields. *)
Theorem run_pipeline_errors
  (grp : list (value * record) -> list (value * record) -> list cogroup)
  (basic_lines rating_lines : list str) (e : exn) :
  run_pipeline int_of_str float_of_str grp basic_lines rating_lines = Err e ->
  e = CsvError.
Proof.
  unfold run_pipeline.
  destruct (basic_branch int_of_str float_of_str basic_lines) as [bs|e1] eqn:Eb;
    cbn [bind].
  2: { intros H; injection H as ->.
       apply (branch_err columns_title_basic basic_cfg filter_basic basic_lines);
         [exact basic_cfg_ok | exact columns_title_basic_NoDup | exact incl_basic
         | exact filter_basic_cleaned | exact Eb]. }
  destruct (rating_branch int_of_str float_of_str rating_lines) as [rs|e2] eqn:Er;
    cbn [bind].
  2: { intros H; injection H as ->.
       apply (branch_err columns_ratings rating_cfg filter_rating rating_lines);
         [exact rating_cfg_ok | exact columns_ratings_NoDup | exact incl_rating
         | exact filter_rating_cleaned | exact Er]. }
  destruct (branches_keyed _ _ _ _ Eb Er) as [[mk Hmk] [rk Hrk]].
  rewrite Hmk, Hrk; cbn [bind]; discriminate.
Qed.

End PipelineProofs.

Lemma dict_of_row_lacks (cols row : list str) (c : str) :
  NoDup cols -> ~ In c cols -> dict_lookup (dict_of_row cols row) (Col c) = None.
Proof.
  intros Hnd Hc; apply dict_lookup_none; rewrite dict_of_row_keys by exact Hnd.
  intros H; apply in_app_or in H as [H|H].
  - apply in_map_iff in H as [c' [E Hc']]; injection E as ->; contradiction.
  - destruct (Nat.ltb _ _); simpl in H; intuition discriminate.
Qed.

Section PipelineOutput.

Variable int_of_str : str -> option Z.
Variable float_of_str : str -> option Q.

Let h (cfg : clean_config) (k : pykey) (v : value) : value :=
  clean_value cfg (numeric_value int_of_str VInt) (numeric_value float_of_str VFloat) k
    (unsentinel v).

(** Every record [run] writes is a movie, not adult, started in 1970 or
    later and rated 5 or more: the fields FilterBasicData and
    FilterRatingData check come out of the merge with the values they
    passed, whatever grouping [CoGroupByKey] uses within its contract. *)
Theorem run_pipeline_output
  (grp : list (value * record) -> list (value * record) -> list cogroup)
  (basic_lines rating_lines : list str) (out : list record) :
  (forall mk rk, is_cogroup mk rk (grp mk rk)) ->
  run_pipeline int_of_str float_of_str grp basic_lines rating_lines = Ok out ->
  forall m, In m out ->
    dict_lookup m (Col (lit "titleType")) = Some (VStr (lit "movie")) /\
    dict_lookup m (Col (lit "isAdult")) = Some (VBool false) /\
    (exists z, dict_lookup m (Col (lit "startYear")) = Some (VInt z) /\ (1970 <= z)%Z) /\
    (exists q, dict_lookup m (Col (lit "averageRating")) = Some (VFloat q) /\
               (5 # 1 <= q)%Q).
Proof.
  intros Hgrp H m Hm; unfold run_pipeline in H.
  destruct (basic_branch int_of_str float_of_str basic_lines) as [bs|] eqn:Eb;
    [|discriminate]; cbn [bind] in H.
  destruct (rating_branch int_of_str float_of_str rating_lines) as [rs|] eqn:Er;
    [|discriminate]; cbn [bind] in H.
  destruct (key_by_tconst bs) as [mk|] eqn:Emk; [|discriminate]; cbn [bind] in H.
  destruct (key_by_tconst rs) as [rk|] eqn:Erk; [|discriminate]; cbn [bind] in H.
  injection H as <-.
  apply in_map_iff in Hm as [[a b] [<- Hab]].
  unfold joined_pairs in Hab; apply in_flat_map in Hab as [[k [ms rs']] [Hg Hp]].
  unfold join_ratings in Hp; cbn [fst snd] in Hp; apply in_prod_iff in Hp as [Ha Hb].
  destruct (Hgrp mk rk) as [_ [_ Hperm]]; destruct (Hperm _ _ _ Hg) as [P1 P2].
  apply (Permutation_in _ P1) in Ha; rewrite (key_by_tconst_values _ _ Emk) in Ha.
  apply filter_In in Ha as [Ha _].
  apply (Permutation_in _ P2) in Hb; rewrite (key_by_tconst_values _ _ Erk) in Hb.
  apply filter_In in Hb as [Hb _].
  destruct (basic_branch_in _ _ _ _ _ Eb Ha) as [row [zs [Hf Hz]]].
  destruct (filter_basic_kept _ _ _ Hf Hz) as [-> [Ht [[av [Hav Htv]] [yv [Hy [Hty Hge]]]]]].
  destruct (rating_branch_in _ _ _ _ _ Er Hb) as [row' [zs' [Hf' Hz']]].
  destruct (filter_rating_kept _ _ _ Hf' Hz') as [-> [x [Hx [Htx Hgx]]]].
  destruct (cleaned_basic_fields int_of_str float_of_str row) as [_ [[bb Hbb] [Hsy _]]].
  destruct (cleaned_rating_fields int_of_str float_of_str row') as [Hav' _].
  fold (h basic_cfg) in *; fold (h rating_cfg) in *.
  set (A := map_vals (h basic_cfg) (dict_of_row columns_title_basic row)) in *.
  set (B := map_vals (h rating_cfg) (dict_of_row columns_ratings row')) in *.
  assert (HA : NoDup (keys A))
    by (subst A; rewrite keys_map_vals; apply dict_of_row_NoDup, columns_title_basic_NoDup).
  assert (HB : NoDup (keys B))
    by (subst B; rewrite keys_map_vals; apply dict_of_row_NoDup, columns_ratings_NoDup).
  assert (Hlack : forall c, ~ In c columns_ratings -> dict_lookup B (Col c) = None).
  { intros c Hc; subst B; rewrite dict_lookup_map_vals,
      dict_of_row_lacks by (exact columns_ratings_NoDup || exact Hc); reflexivity. }
  rewrite !mergedicts_lookup by assumption.
  rewrite !Hlack by (simpl; intuition discriminate).
  split; [exact Ht | split; [|split]].
  - rewrite Hav; rewrite Hbb in Hav; injection Hav as <-; cbn in Htv; now subst bb.
  - destruct Hsy as [Hsy|[z Hsy]]; rewrite Hsy in Hy; injection Hy as <-;
      [discriminate|].
    exists z; split; [exact Hsy|].
    cbn [py_ge] in Hge; injection Hge as Hge.
    change (1970 # 1)%Q with (Qmake 1970 1) in Hge.
    rewrite Qle_bool_Z in Hge; now apply Z.leb_le.
  - rewrite Hx; destruct Hav' as [Ha'|[q Ha']]; rewrite Ha' in Hx; injection Hx as <-;
      [discriminate|].
    exists q; split; [reflexivity|].
    cbn [py_ge] in Hgx; injection Hgx as Hgx; now apply Qle_bool_iff.
Qed.

End PipelineOutput.

(** ** Witnesses of the further properties *)

Lemma long_field_chars (c : ascii) : In c long_field -> c = "a"%char.
Proof. apply repeat_spec. Qed.

Lemma split_tab_aux_plain (s cur : str) :
  ~ In tab s -> split_tab_aux s cur = [cur ++ s].
Proof.
  revert cur; induction s as [|c s IH]; intros cur H; simpl; [now rewrite app_nil_r|].
  destruct (Ascii.eqb c tab) eqn:E;
    [apply Ascii.eqb_eq in E; subst; exfalso; apply H; now left|].
  rewrite IH, <- app_assoc; [reflexivity|]; intros Ht; apply H; now right.
Qed.

Lemma split_tab_long_field : split_tab long_field = [long_field].
Proof.
  apply split_tab_aux_plain; intros Ht; apply long_field_chars in Ht; discriminate.
Qed.

Lemma repeat_S (c : ascii) (n : nat) : repeat c (S n) = c :: repeat c n.
Proof. reflexivity. Qed.

Lemma long_field_cons : long_field = "a"%char :: repeat "a"%char (N.to_nat 131072).
Proof.
  unfold long_field; change (N.to_nat 131073) with (N.to_nat (N.succ 131072)).
  rewrite N2Nat.inj_succ; exact (repeat_S "a"%char (N.to_nat 131072)).
Qed.

Lemma long_field_length : N.of_nat (List.length long_field) = 131073%N.
Proof. unfold long_field; rewrite repeat_length; apply N2Nat.id. Qed.

Lemma parse_csv_long_field (cols : list str) : parse_csv cols long_field = Err CsvError.
Proof.
  assert (Hlb : forall c, In c long_field -> is_line_break c = false)
    by (intros c Hc; rewrite (long_field_chars c Hc); reflexivity).
  unfold parse_csv, splitlines; rewrite splitlines_aux_plain by exact Hlb.
  rewrite long_field_cons at 1; cbn [app read_rows].
  unfold process_line.
  rewrite process_field_too_long; [reflexivity | now left | reflexivity | | |].
  - intros c Hc; rewrite (long_field_chars c Hc); split; [reflexivity | discriminate].
  - rewrite long_field_cons; discriminate.
  - rewrite long_field_length; reflexivity.
Qed.

Ltac solve_item_ok :=
  split; [solve_no_break | split; [apply N.leb_le; reflexivity |
    let Hf := fresh "Hf" in
    intros Hf; first [discriminate Hf | split; [vm_compute; intuition discriminate
                                              | vm_compute; discriminate]]]].

Lemma parse_csv_quoted_witness :
  Forall item_ok ex_items /\
  parse_csv columns_ratings (join_tab (map encode_field ex_items)) =
    Ok [dict_of_row columns_ratings (map snd ex_items)].
Proof.
  assert (H : Forall item_ok ex_items)
    by (apply Forall_cons; [|apply Forall_cons; [|apply Forall_nil]]; solve_item_ok).
  split; [exact H|].
  apply (parse_csv_quoted columns_ratings ex_items H); vm_compute; discriminate.
Defined.

Lemma parse_csv_lines_witness :
  parse_csv columns_ratings (flat_map (fun l => l ++ [lf]) ex_lines) =
  Ok (map (fun l => dict_of_row columns_ratings (split_tab l))
        (filter (fun l : str => match l with [] => false | _ => true end) ex_lines)).
Proof.
  apply parse_csv_lines.
  - left; exists lf; split; [reflexivity | split; [reflexivity | discriminate]].
  - intros l Hl; vm_compute in Hl; repeat (destruct Hl as [<-|Hl];
      [split; [solve_no_break | intros f Hf; vm_compute in Hf;
         repeat (destruct Hf as [<-|Hf];
                 [split; [vm_compute; discriminate | apply N.leb_le; reflexivity]|]);
         destruct Hf]|]); destruct Hl.
Defined.

Lemma parse_csv_field_too_long_witness :
  parse_csv columns_ratings long_field = Err CsvError.
Proof.
  apply parse_csv_field_too_long.
  - intros c Hc; rewrite (long_field_chars c Hc); reflexivity.
  - rewrite split_tab_long_field; intros f [<-|[]]; rewrite long_field_cons; discriminate.
  - exists long_field; rewrite split_tab_long_field; split; [now left|].
    rewrite long_field_length; reflexivity.
Defined.

Lemma parse_csv_record_shape_witness :
  parse_csv columns_ratings ex_short_line = Ok [ex_short_record] /\
  (keys ex_short_record = map Col columns_ratings \/
   keys ex_short_record = map Col columns_ratings ++ [NoneKey]) /\
  (forall c, In c columns_ratings ->
     exists v, dict_lookup ex_short_record (Col c) = Some v /\ raw_value v).
Proof.
  assert (H : parse_csv columns_ratings ex_short_line = Ok [ex_short_record])
    by (vm_compute; reflexivity).
  split; [exact H|].
  apply (parse_csv_record_shape columns_ratings ex_short_line [ex_short_record]); [solve_nodup | exact H
    | now left].
Defined.

Lemma clean_keys_witness :
  exists r, clean dec_int_of_str dec_float_of_str basic_cfg ex_basic_raw = Ok r /\
    keys r = keys ex_basic_raw.
Proof.
  eexists; split; [reflexivity|].
  apply (clean_keys dec_int_of_str dec_float_of_str basic_cfg ex_basic_raw); reflexivity.
Defined.

Lemma clean_other_columns_witness :
  exists r, clean dec_int_of_str dec_float_of_str basic_cfg ex_basic_raw = Ok r /\
    dict_lookup r (Col (lit "endYear")) = Some VNone /\
    dict_lookup r (Col (lit "genres")) =
      option_map unsentinel (dict_lookup ex_basic_raw (Col (lit "genres"))).
Proof.
  eexists; split; [reflexivity|]; split; [reflexivity|].
  apply (clean_other_columns dec_int_of_str dec_float_of_str basic_cfg ex_basic_raw);
    reflexivity.
Defined.

Lemma clean_missing_column_witness :
  clean dec_int_of_str dec_float_of_str basic_cfg ex_basic_raw_nostart = Err KeyError.
Proof.
  apply clean_missing_column.
  - exact basic_cfg_ok.
  - intros c v Hc Hv; vm_compute in Hc.
    repeat (destruct Hc as [<-|Hc];
            [vm_compute in Hv; first [discriminate Hv | injection Hv as <-];
             right; eexists; reflexivity|]).
    destruct Hc.
  - exists (lit "startYear"); split; [simpl; intuition | reflexivity].
Defined.

Lemma run_pipeline_errors_witness :
  exists e, run_pipeline dec_int_of_str dec_float_of_str cogroup_by_key [long_field] []
            = Err e /\ e = CsvError.
Proof.
  assert (H : run_pipeline dec_int_of_str dec_float_of_str cogroup_by_key [long_field] []
              = Err CsvError).
  { unfold run_pipeline, basic_branch; cbn [flat_map_r]; rewrite parse_csv_long_field;
    reflexivity. }
  exists CsvError; split; [exact H|].
  exact (run_pipeline_errors dec_int_of_str dec_float_of_str cogroup_by_key [long_field] []
           CsvError H).
Defined.

Lemma run_pipeline_output_witness :
  exists out,
    run_pipeline dec_int_of_str dec_float_of_str cogroup_by_key [ex_basic_line]
      [ex_rating_line] = Ok out /\ out <> [] /\
    forall m, In m out ->
      dict_lookup m (Col (lit "titleType")) = Some (VStr (lit "movie")) /\
      dict_lookup m (Col (lit "isAdult")) = Some (VBool false) /\
      (exists z, dict_lookup m (Col (lit "startYear")) = Some (VInt z) /\ (1970 <= z)%Z) /\
      (exists q, dict_lookup m (Col (lit "averageRating")) = Some (VFloat q) /\
                 (5 # 1 <= q)%Q).
Proof.
  eexists; split; [vm_compute; reflexivity|]; split; [discriminate|].
  apply (run_pipeline_output dec_int_of_str dec_float_of_str cogroup_by_key
           [ex_basic_line] [ex_rating_line]); [exact cogroup_by_key_ok|].
  vm_compute; reflexivity.
Defined.
